(** * Hypothetical Document Embeddings

    A shallow embedding of [libs/langchain/langchain/chains/hyde/base.py]
    (class [HypotheticalDocumentEmbedder]) and the properties of its
    query-embedding pipeline: prompt selection in [from_llm], generation and
    embedding in [embed_query], the pass-through [embed_documents] and the
    element-wise mean of [combine_embeddings].

    Python values are modelled as follows.
    - [float] is IEEE 754 binary64, through the Standard Library's
      [spec_float] with precision 53 and maximal exponent 1024 (round to
      nearest, ties to even; one NaN, no payload).
    - A call that may raise returns a [result]; an exception records the
      place that raised it, its class and its message.
    - A [str] is the list of its code points, for code points below 256
      (one [ascii] each).
    - The keyword dictionary handed to [LLMChain.generate] is a
      [gmap string string]; [PROMPT_MAP] is an association list, because the
      error message of [from_llm] prints its keys in insertion order.
    - What [base.py] imports from the rest of the package (the [LLMChain]
      methods, the prompt registry, the validation of the inherited [Chain]
      options) is the interface [langchain]. *)

From Stdlib Require Import ZArith QArith Lia Bool Ascii DecimalString.
From Stdlib Require Import Floats.SpecFloat.
From stdpp Require Import base list strings gmap.

Local Open Scope string_scope.

(** ** Exceptions and results *)

Module Py.

(** Where an exception comes from. *)
Inductive site : Type :=
| hyde_raise          (* a [raise] statement of chains/hyde/base.py *)
| builtin_raise       (* the interpreter: indexing, [list(...)] *)
| numpy_raise         (* inside a numpy call *)
| collaborator_raise. (* the language model, the embedding model, pydantic *)

Inductive exn_class : Type :=
| ValueError
| TypeError
| IndexError
| KeyError
| OtherError (name : string).

Record exn : Type := Exn {
  exn_site : site;
  exn_cls : exn_class;
  exn_msg : string
}.

Inductive result (A : Type) : Type :=
| Ok (a : A)
| Raise (e : exn).
Arguments Ok {A} a.
Arguments Raise {A} e.

#[global] Instance result_ret : MRet result := fun A a => Ok a.
#[global] Instance result_bind : MBind result := fun A B f m =>
  match m with
  | Ok a => f a
  | Raise e => Raise e
  end.

Definition returns {A} (m : result A) : bool :=
  match m with Ok _ => true | Raise _ => false end.

(** [l[i]] on a list, for an index [i >= 0]. *)
Definition getitem {A} (l : list A) (i : nat) : result A :=
  match l !! i with
  | Some x => Ok x
  | None => Raise (Exn builtin_raise IndexError "list index out of range")
  end.

(** *** [repr] of a [str] and of a list of [str]

    The quote is the apostrophe unless the text has an apostrophe and no
    double quote.  Backslash and the chosen quote are escaped, so are tab,
    line feed and carriage return; every other character that is not
    printable is written [\xhh]: the control characters 0 to 31 and 127 to
    159, the no-break space 160 and the soft hyphen 173. *)

Definition apostrophe : ascii := "039"%char.
Definition double_quote : ascii := "034"%char.
Definition backslash : ascii := "092"%char.

Fixpoint contains_char (c : ascii) (s : string) : bool :=
  match s with
  | EmptyString => false
  | String c' s' => Ascii.eqb c c' || contains_char c s'
  end.

Definition hex_digit (n : nat) : ascii :=
  match String.get n "0123456789abcdef" with
  | Some c => c
  | None => "0"%char
  end.

(** [str.isprintable] on one code point below 256. *)
Definition printable (n : nat) : bool :=
  Nat.leb 32 n && negb (Nat.leb 127 n && Nat.leb n 160) && negb (Nat.eqb n 173).

Definition repr_char (quote c : ascii) : string :=
  let n := nat_of_ascii c in
  if Ascii.eqb c quote || Ascii.eqb c backslash then String backslash (String c "")
  else if Nat.eqb n 9 then String backslash "t"
  else if Nat.eqb n 10 then String backslash "n"
  else if Nat.eqb n 13 then String backslash "r"
  else if negb (printable n) then
    String backslash (String "x" (String (hex_digit (n / 16)) (String (hex_digit (n mod 16)) "")))
  else String c "".

Fixpoint repr_body (quote : ascii) (s : string) : string :=
  match s with
  | EmptyString => ""
  | String c s' => repr_char quote c ++ repr_body quote s'
  end.

Definition repr_str (s : string) : string :=
  let quote :=
    if contains_char apostrophe s && negb (contains_char double_quote s)
    then double_quote else apostrophe in
  String quote (repr_body quote s ++ String quote "").

Fixpoint join (sep : string) (l : list string) : string :=
  match l with
  | [] => ""
  | [s] => s
  | s :: l' => s ++ sep ++ join sep l'
  end.

Definition repr_list (l : list string) : string :=
  "[" ++ join ", " (repr_str <$> l) ++ "]".

(** *** Reading a [str] literal back

    What [ast.literal_eval] gives on a literal as [repr] writes them: the
    text between the quotes, with the escapes undone. *)





(** *** A [dict] with [str] keys, in insertion order *)

Definition dict (V : Type) : Type := list (string * V).

Definition dict_keys {V} (d : dict V) : list string := fst <$> d.

(** [k in d] *)
Definition dict_contains {V} (d : dict V) (k : string) : bool :=
  bool_decide (k ∈ dict_keys d).

Fixpoint dict_lookup {V} (d : dict V) (k : string) : option V :=
  match d with
  | [] => None
  | (k', v) :: d' => if bool_decide (k = k') then Some v else dict_lookup d' k
  end.

(** [d[k]] *)
Definition dict_getitem {V} (d : dict V) (k : string) : result V :=
  match dict_lookup d k with
  | Some v => Ok v
  | None => Raise (Exn builtin_raise KeyError (repr_str k))
  end.

End Py.
Export Py.

(** ** binary64 *)

Module F64.

Definition prec : Z := 53.
Definition emax : Z := 1024.

Definition float : Type := spec_float.

(** The representation invariant of a binary64 value: a finite number has
    its canonical mantissa and exponent. *)
Definition valid (x : float) : bool := valid_binary prec emax x.

Definition add (x y : float) : float := SFadd prec emax x y.
Definition div (x y : float) : float := SFdiv prec emax x y.

(** Conversion of an integer, correctly rounded. *)
Definition of_int (z : Z) : float := binary_normalize prec emax z 0 false.

Definition zero : float := S754_zero false.
Definition neg_zero : float := S754_zero true.
Definition one : float := of_int 1.
Definition nan : float := S754_nan.

(** The literal [m / 10^k], e.g. [decimal 1 1] for [0.1]: both operands are
    exact for the literals used here, so the quotient is the nearest
    binary64 number, as the Python parser gives. *)
Definition decimal (m : Z) (k : nat) : float :=
  div (of_int m) (of_int (10 ^ Z.of_nat k)).

Definition is_zero (x : float) : bool :=
  match x with S754_zero _ => true | _ => false end.

(** Two floats are the same number: identical, or both a zero (of either
    sign).  NaN is the same as NaN, as in [numpy.testing.assert_array_equal]. *)
Definition same_value (x y : float) : Prop :=
  x = y \/ (is_zero x = true /\ is_zero y = true).

(** The same float with a zero of either sign turned into [0.0]. *)
Definition unsigned_zero (x : float) : float :=
  match x with S754_zero _ => zero | _ => x end.

(** The rational number a finite float stands for. *)
Definition to_Q (x : float) : option Q :=
  match x with
  | S754_zero _ => Some 0%Q
  | S754_finite s m e =>
      Some match e with
           | Z0 => inject_Z (cond_Zopp s (Z.pos m))
           | Z.pos k => inject_Z (cond_Zopp s (Z.pos m) * 2 ^ Z.pos k)
           | Z.neg k => Qmake (cond_Zopp s (Z.pos m)) (2 ^ k)
           end
  | _ => None
  end.

#[global] Arguments add : simpl never.
#[global] Arguments div : simpl never.
#[global] Arguments of_int : simpl never.

End F64.

Abbreviation float := F64.float.

(** ** The part of numpy that [combine_embeddings] uses *)

Module Np.

(** [np.array(data)] for [data : List[List[float]]] is either the empty
    one-dimensional array (for [[]]) or a matrix of [ncols] columns. *)
Inductive ndarray : Type :=
| Empty1D
| Matrix (ncols : nat) (rows : list (list float)).

(** What a reduction returns: a [numpy.float64] scalar or a
    one-dimensional array. *)
Inductive value : Type :=
| Scalar (x : float)
| Vector (xs : list float).

(** The exception of [np.array] on rows of different lengths, [n] rows. *)
Definition inhomogeneous (n : nat) : exn :=
  Exn numpy_raise ValueError
    ("setting an array element with a sequence. The requested array has an inhomogeneous shape after 1 dimensions. The detected shape was ("
     ++ NilZero.string_of_uint (Nat.to_uint n) ++ ",) + inhomogeneous part.").

(** [np.array(data)]: rows of different lengths are refused. *)
Definition array (data : list (list float)) : result ndarray :=
  match data with
  | [] => Ok Empty1D
  | r :: rest =>
      if forallb (fun r' => Nat.eqb (length r') (length r)) rest
      then Ok (Matrix (length r) data)
      else Raise (inhomogeneous (length data))
  end.

(** One step of [np.add.reduce] along axis 0: the accumulator plus a row. *)
Definition add_row (acc row : list float) : list float :=
  zip_with F64.add acc row.

(** *** Pairwise summation

    How numpy adds up a contiguous run of floats: fewer than 8 one after
    the other; up to 128 in eight interleaved accumulators that are then
    added as a tree, the last [n mod 8] elements after them; more than 128
    as the sum of two halves, the first of a length that is a multiple of
    8. *)

Definition sum_short (xs : list float) : float :=
  fold_left F64.add xs F64.neg_zero.

(** [blocks] further blocks of 8 added to the accumulators [r]. *)
Fixpoint add_blocks (blocks : nat) (r xs : list float)
  : list float * list float :=
  match blocks with
  | 0 => (r, xs)
  | S b => add_blocks b (zip_with F64.add r (take 8 xs)) (drop 8 xs)
  end.

Definition sum_unrolled (xs : list float) : float :=
  let '(r, rest) := add_blocks (length xs / 8 - 1) (take 8 xs) (drop 8 xs) in
  match r with
  | [r0; r1; r2; r3; r4; r5; r6; r7] =>
      fold_left F64.add rest
        (F64.add (F64.add (F64.add r0 r1) (F64.add r2 r3))
                 (F64.add (F64.add r4 r5) (F64.add r6 r7)))
  | _ => F64.nan (* not reached: there are 8 accumulators *)
  end.

(** [fuel] bounds the depth of the halving; the length of the list is
    enough. *)
Fixpoint pairwise_sum (fuel : nat) (xs : list float) : float :=
  if Nat.ltb (length xs) 8 then sum_short xs
  else if Nat.leb (length xs) 128 then sum_unrolled xs
  else
    match fuel with
    | 0 => sum_unrolled xs (* not reached *)
    | S fuel' =>
        let n2 := length xs / 2 - (length xs / 2) mod 8 in
        F64.add (pairwise_sum fuel' (take n2 xs))
                (pairwise_sum fuel' (drop n2 xs))
    end.

(** [np.add.reduce(a, axis=0)], started at the identity [0.0] of [np.add].
    A matrix of one column is one contiguous run, which is summed pairwise
    and added to the start value; in a matrix of more columns the rows are
    added to the accumulator row one after the other. *)
Definition sum_axis0 (ncols : nat) (rows : list (list float)) : list float :=
  match ncols with
  | 1 =>
      let column := concat rows in
      [F64.add F64.zero (pairwise_sum (length column) column)]
  | _ => fold_left add_row rows (replicate ncols F64.zero)
  end.

Definition count (n : nat) : float := F64.of_int (Z.of_nat n).

(** [a.mean(axis=0)]: the sum along axis 0 divided by the number of rows.
    The empty one-dimensional array gives the scalar [0.0 / 0]. *)
Definition mean_axis0 (a : ndarray) : value :=
  match a with
  | Empty1D => Scalar (F64.div F64.zero (count 0))
  | Matrix ncols rows =>
      Vector ((fun s => F64.div s (count (length rows))) <$> sum_axis0 ncols rows)
  end.

Definition not_iterable : exn :=
  Exn builtin_raise TypeError "'numpy.float64' object is not iterable".

(** [list(v)] *)
Definition to_list (v : value) : result (list float) :=
  match v with
  | Scalar _ => Raise not_iterable
  | Vector xs => Ok xs
  end.

End Np.

(** ** What base.py imports from the package *)

Record Generation : Type := { Generation_text : string }.

Record LLMResult : Type := { generations : list (list Generation) }.

(** [langchain_core.embeddings.Embeddings]: the batch operation. *)
Record Embeddings : Type := {
  Embeddings_embed_documents : list string -> result (list (list float))
}.

(** [LLMChain(llm=..., prompt=...)] *)
Record LLMChain (L P : Type) : Type := {
  llm : L;
  prompt : P
}.
Arguments llm {L P} _.
Arguments prompt {L P} _.

Class langchain : Type := {
  BaseLanguageModel : Type;
  BasePromptTemplate : Type;
  (** [LLMChain.input_keys], [LLMChain.output_keys], [LLMChain.generate] *)
  LLMChain_input_keys : LLMChain BaseLanguageModel BasePromptTemplate -> list string;
  LLMChain_output_keys : LLMChain BaseLanguageModel BasePromptTemplate -> list string;
  LLMChain_generate :
    LLMChain BaseLanguageModel BasePromptTemplate ->
    list (gmap string string) -> result LLMResult;
  (** [langchain.chains.hyde.prompts.PROMPT_MAP] *)
  PROMPT_MAP : dict BasePromptTemplate;
  (** The remaining keyword arguments of the constructor and their
      validation against the fields inherited from [Chain]. *)
  Kwargs : Type;
  ChainOptions : Type;
  validate_kwargs : Kwargs -> result ChainOptions
}.

(** ** class HypotheticalDocumentEmbedder *)

Section Hyde.
Context `{LC : langchain}.

Record HypotheticalDocumentEmbedder : Type := {
  base_embeddings : Embeddings;
  llm_chain : LLMChain BaseLanguageModel BasePromptTemplate;
  chain_options : ChainOptions
}.

Definition input_keys (self : HypotheticalDocumentEmbedder) : list string :=
  LLMChain_input_keys (llm_chain self).

Definition output_keys (self : HypotheticalDocumentEmbedder) : list string :=
  LLMChain_output_keys (llm_chain self).

Definition embed_documents (self : HypotheticalDocumentEmbedder)
    (texts : list string) : result (list (list float)) :=
  Embeddings_embed_documents (base_embeddings self) texts.

(** [list(np.array(embeddings).mean(axis=0))]; the method does not read
    [self]. *)
Definition combine_embeddings (embeddings : list (list float))
  : result (list float) :=
  a ← Np.array embeddings;
  Np.to_list (Np.mean_axis0 a).

Definition embed_query (self : HypotheticalDocumentEmbedder) (text : string)
  : result (list float) :=
  var_name ← getitem (LLMChain_input_keys (llm_chain self)) 0;
  result ← LLMChain_generate (llm_chain self) [ {[ var_name := text ]} ];
  generation ← getitem (generations result) 0;
  let documents := Generation_text <$> generation in
  embeddings ← embed_documents self documents;
  combine_embeddings embeddings.

Definition missing_prompt : exn :=
  Exn hyde_raise ValueError
    ("Must specify prompt_key if custom_prompt not provided. Should be one of "
     ++ repr_list (dict_keys PROMPT_MAP) ++ ".").

Definition from_llm (llm : BaseLanguageModel) (base_embeddings : Embeddings)
    (prompt_key : option string) (custom_prompt : option BasePromptTemplate)
    (kwargs : Kwargs) : result HypotheticalDocumentEmbedder :=
  prompt ←
    match custom_prompt with
    | Some p => Ok p
    | None =>
        match prompt_key with
        | Some k =>
            if dict_contains PROMPT_MAP k then dict_getitem PROMPT_MAP k
            else Raise missing_prompt
        | None => Raise missing_prompt
        end
    end;
  let llm_chain := {| llm := llm; prompt := prompt |} in
  options ← validate_kwargs kwargs;
  Ok {| base_embeddings := base_embeddings;
        llm_chain := llm_chain;
        chain_options := options |}.

Definition _chain_type (self : HypotheticalDocumentEmbedder) : string :=
  "hyde_chain".

End Hyde.

(** ** The arithmetic mean, as the specification words it

    "for each vector position, the arithmetic mean across all candidate
    vectors at that position": the sum of the numbers divided by how many
    they are, in exact arithmetic. *)

Definition arithmetic_mean (xs : list Q) : Q :=
  (fold_right Qplus 0 xs / inject_Z (Z.of_nat (length xs)))%Q.

(** The components at position [i]. *)
Definition column (i : nat) (vs : list (list float)) : list float :=
  (fun v => default F64.zero (v !! i)) <$> vs.

(** The rational numbers a list of finite floats stands for. *)
Fixpoint values (xs : list float) : option (list Q) :=
  match xs with
  | [] => Some []
  | x :: xs' =>
      match F64.to_Q x, values xs' with
      | Some q, Some qs => Some (q :: qs)
      | _, _ => None
      end
  end.

(** [x] is the arithmetic mean of [xs]: all of them are finite and the
    number [x] stands for is the mean of the numbers [xs] stand for. *)
Definition is_mean_of (x : float) (xs : list float) : Prop :=
  exists q qs, F64.to_Q x = Some q /\ values xs = Some qs /\
               (q == arithmetic_mean qs)%Q.

Definition sum_Z (ks : list Z) : Z := fold_right Z.add 0%Z ks.

Definition sum_abs (ks : list Z) : Z := fold_right Z.add 0%Z (Z.abs <$> ks).

(** All the vectors have [d] components. *)
Definition rectangular (d : nat) (vs : list (list float)) : Prop :=
  Forall (fun v => length v = d) vs.

(** The exception comes from a [raise] statement of the embedder itself,
    not from a library call that happened to fail. *)
Definition raised_by_hyde (e : exn) : Prop := exn_site e = hyde_raise.

(** ** Test doubles

    A language model that answers every prompt with the same completions, an
    embedding model that is a table from text to vector, and a registry of
    two prompts. *)

Module Stub.

Record template : Type := {
  template_text : string;
  input_variables : list string
}.

Definition web_search : template :=
  {| template_text := "Please write a passage to answer the question: {QUESTION}";
     input_variables := ["QUESTION"] |}.

Definition sci_fact : template :=
  {| template_text := "Please write a scientific paper passage about: {Claim}";
     input_variables := ["Claim"] |}.

Definition custom : template :=
  {| template_text := "Answer in one line: {q} {style}";
     input_variables := ["q"; "style"] |}.

#[export] Instance lc : langchain := {|
  BaseLanguageModel := list string;
  BasePromptTemplate := template;
  LLMChain_input_keys c := input_variables (prompt c);
  LLMChain_output_keys c := ["text"];
  LLMChain_generate c inputs :=
    Ok {| generations := (fun _ => Build_Generation <$> llm c) <$> inputs |};
  PROMPT_MAP := [("web_search", web_search); ("sci_fact", sci_fact)];
  Kwargs := unit;
  ChainOptions := unit;
  validate_kwargs _ := Ok tt
|}.

Definition unknown_text (t : string) : exn :=
  Exn collaborator_raise (OtherError "EmbeddingError") t.

Definition table (tbl : list (string * list float)) : Embeddings :=
  {| Embeddings_embed_documents texts :=
       mapM (fun t => match dict_lookup tbl t with
                      | Some v => Ok v
                      | None => Raise (unknown_text t)
                      end) texts |}.

Definition f (z : Z) : float := F64.of_int z.

Definition docs : Embeddings :=
  table [("doc1", [f 1; f 3]); ("doc2", [f 3; f 1]); ("a", [f 1]); ("b", [f 2])].

(** An embedder whose language model returns [completions]. *)
Definition hyde (completions : list string) (p : template)
  : HypotheticalDocumentEmbedder :=
  {| base_embeddings := docs;
     llm_chain := {| llm := completions; prompt := p |};
     chain_options := tt |}.

(** 0.1, 0.2 and 0.3 *)
Definition tenth : float := F64.decimal 1 1.
Definition fifth : float := F64.decimal 2 1.
Definition three_tenths : float := F64.decimal 3 1.

Definition candidates : list (list float) :=
  [[tenth; three_tenths]; [fifth; fifth]; [three_tenths; tenth]].

Definition candidates_reversed : list (list float) :=
  [[three_tenths; tenth]; [fifth; fifth]; [tenth; three_tenths]].

End Stub.

(** ** Further vocabulary for the properties *)

(** The binary64 value of an integer below 2^53 in magnitude: its 53-bit
    mantissa and the exponent that goes with it. *)
Definition int_float (z : Z) : float :=
  match z with
  | Z0 => S754_zero false
  | _ => S754_finite (z <? 0)%Z (Z.to_pos (Z.abs z * 2 ^ (53 - Zdigits2 z))%Z)
           (Zdigits2 z - 53)%Z
  end.

(** Two of the vectors differ in length. *)
Definition ragged (vs : list (list float)) : Prop :=
  exists v w, v ∈ vs /\ w ∈ vs /\ length v ≠ length w.




Definition index_error : exn :=
  Exn builtin_raise IndexError "list index out of range".

(** ** Test doubles that fail

    A language model that is either out of order or returns the generation
    groups it is given, a registry without prompts, and a constructor that
    accepts its other arguments or not. *)

Module Broken.

Definition out_of_order : exn :=
  Exn collaborator_raise (OtherError "RateLimitError") "quota exceeded".

Definition refused : exn :=
  Exn collaborator_raise (OtherError "ValidationError") "extra fields not permitted".

#[export] Instance lc : langchain := {|
  BaseLanguageModel := option (list (list string));
  BasePromptTemplate := Stub.template;
  LLMChain_input_keys c := Stub.input_variables (prompt c);
  LLMChain_output_keys c := ["text"];
  LLMChain_generate c inputs :=
    match llm c with
    | Some groups =>
        Ok {| generations := (fun group : list string => Build_Generation <$> group) <$> groups |}
    | None => Raise out_of_order
    end;
  PROMPT_MAP := [];
  Kwargs := bool;
  ChainOptions := unit;
  validate_kwargs accepted := if accepted then Ok tt else Raise refused
|}.

Definition no_variable : Stub.template :=
  {| Stub.template_text := "Write a passage."; Stub.input_variables := [] |}.

Definition hyde (model : option (list (list string))) (p : Stub.template)
  : HypotheticalDocumentEmbedder :=
  {| base_embeddings := Stub.docs;
     llm_chain := {| llm := model; prompt := p |};
     chain_options := tt |}.

End Broken.

(** * Properties *)

(** ** binary64 arithmetic *)

Section Binary64.
Local Open Scope Z_scope.

Lemma one_eq : F64.one = S754_finite false 4503599627370496 (-52).
Proof. reflexivity. Qed.

Lemma div_eucl_exact (a b q : Z) :
  0 < b -> a = q * b -> Z.div_eucl a b = (q, 0).
Proof.
  intros Hb ->.
  pose proof (Z.div_mul q b ltac:(lia)) as Hq.
  pose proof (Z.mod_mul q b ltac:(lia)) as Hr.
  unfold Z.div, Z.modulo in Hq, Hr.
  destruct (Z.div_eucl (q * b) b) as [q' r']. simpl in *. congruence.
Qed.

(** The last step of rounding leaves a canonical mantissa as it is. *)
Lemma round_finish s m e :
  bounded F64.prec F64.emax m e = true ->
  (let '(mrs, e') := shr_fexp F64.prec F64.emax (Z.pos m) e loc_Exact in
   match shr_m mrs with
   | 0 => S754_zero s
   | Z.pos m' =>
       if e' <=? F64.emax - F64.prec then S754_finite s m' e' else S754_infinity s
   | Z.neg _ => S754_nan
   end) = S754_finite s m e.
Proof.
  intros Hb. unfold bounded, canonical_mantissa in Hb.
  apply andb_true_iff in Hb as [Hc He]. apply Z.eqb_eq in Hc.
  unfold shr_fexp. cbn [Zdigits2 shr_record_of_loc].
  rewrite Hc, Z.sub_diag. cbn [shr shr_m]. now rewrite He.
Qed.

(** An exact result with a canonical mantissa is not rounded. *)
Lemma round_canonical s m e :
  bounded F64.prec F64.emax m e = true ->
  binary_round_aux F64.prec F64.emax s (Z.pos m) e loc_Exact = S754_finite s m e.
Proof.
  intros Hb. pose proof Hb as Hb'. unfold bounded, canonical_mantissa in Hb.
  apply andb_true_iff in Hb as [Hc He]. apply Z.eqb_eq in Hc.
  unfold binary_round_aux. unfold shr_fexp at 1. cbn [Zdigits2 shr_record_of_loc].
  rewrite Hc, Z.sub_diag.
  cbn [shr shr_m loc_of_shr_record round_nearest_even].
  apply round_finish, Hb'.
Qed.

(** Nor is twice that mantissa at the exponent below: the shift is exact. *)
Lemma round_canonical_double s m e :
  bounded F64.prec F64.emax m e = true ->
  binary_round_aux F64.prec F64.emax s (Z.pos m~0) (e - 1) loc_Exact
  = S754_finite s m e.
Proof.
  intros Hb. pose proof Hb as Hb'. unfold bounded, canonical_mantissa in Hb.
  apply andb_true_iff in Hb as [Hc He]. apply Z.eqb_eq in Hc.
  unfold binary_round_aux. unfold shr_fexp at 1.
  cbn [Zdigits2 digits2_pos shr_record_of_loc].
  replace (fexp F64.prec F64.emax (Z.pos (Pos.succ (digits2_pos m)) + (e - 1)) - (e - 1))
    with 1.
  - cbn [shr SpecFloat.iter_pos shr_1 orb shr_m loc_of_shr_record round_nearest_even].
    replace (e - 1 + 1) with e by lia.
    apply round_finish, Hb'.
  - rewrite Pos2Z.inj_succ.
    replace (Z.succ (Z.pos (digits2_pos m)) + (e - 1)) with (Z.pos (digits2_pos m) + e)
      by lia.
    rewrite Hc. lia.
Qed.

Lemma div_one_finite s m e :
  bounded F64.prec F64.emax m e = true ->
  F64.div (S754_finite s m e) F64.one = S754_finite s m e.
Proof.
  intros Hb. pose proof Hb as Hb'. rewrite one_eq.
  unfold bounded, canonical_mantissa in Hb.
  apply andb_true_iff in Hb as [Hc He].
  apply Z.eqb_eq in Hc. apply Z.leb_le in He.
  unfold F64.div, SFdiv, SFdiv_core_binary.
  change (Zdigits2 (Z.pos 4503599627370496)) with 53.
  change (Zdigits2 (Z.pos m)) with (Z.pos (digits2_pos m)).
  rewrite xorb_false_r.
  set (d := Z.pos (digits2_pos m)) in *.
  assert (Hd : 0 < d) by (unfold d; lia).
  unfold fexp, emin, F64.prec, F64.emax in Hc.
  set (e' := Z.min _ _).
  change IntDef.Z.div_eucl with Z.div_eucl.
  destruct (Z.eq_dec e (-1074)) as [Hsub|Hnorm].
  - (* the least exponent: the quotient keeps it *)
    assert (He' : e' = e) by (unfold e', fexp, emin, F64.prec, F64.emax; lia).
    rewrite He'. replace (e - -52 - e) with 52 by lia.
    rewrite Z.shiftl_mul_pow2 by lia.
    rewrite (div_eucl_exact _ _ (Z.pos m)) by lia.
    change (new_location 4503599627370496 0) with loc_Exact.
    apply round_canonical, Hb'.
  - (* a normal number: one more bit is computed, then dropped *)
    assert (He' : e' = e - 1) by (unfold e', fexp, emin, F64.prec, F64.emax; lia).
    rewrite He'. replace (e - -52 - (e - 1)) with 53 by lia.
    rewrite Z.shiftl_mul_pow2 by lia.
    rewrite (div_eucl_exact _ _ (Z.pos m~0)) by lia.
    change (new_location 4503599627370496 0) with loc_Exact.
    apply round_canonical_double, Hb'.
Qed.

(** [x / 1.0] is [x]. *)
Lemma div_one x : F64.valid x = true -> F64.div x F64.one = x.
Proof.
  destruct x as [[]|[]| |s m e]; try reflexivity. apply div_one_finite.
Qed.

Lemma add_comm x y : F64.add x y = F64.add y x.
Proof.
  destruct x as [sx|sx| |sx mx ex], y as [sy|sy| |sy my ey]; try reflexivity;
    try (destruct sx, sy; reflexivity).
  unfold F64.add, SFadd. rewrite (Z.min_comm ey ex). f_equal. apply Z.add_comm.
Qed.

(** [0.0 + x] is [x], except that it is [0.0] for [-0.0]. *)
Lemma add_zero_l x : x <> F64.neg_zero -> F64.add F64.zero x = x.
Proof. destruct x as [[]| | |]; try reflexivity. intros H. now elim H. Qed.

(** Two numbers added to an accumulator that starts at [0.0] may come in
    either order. *)
Lemma add_zero_swap x y :
  F64.add (F64.add F64.zero x) y = F64.add (F64.add F64.zero y) x.
Proof.
  destruct x as [[]|[]| |sx mx ex], y as [[]|[]| |sy my ey]; try reflexivity.
  apply (add_comm (S754_finite sx mx ex) (S754_finite sy my ey)).
Qed.

Lemma same_value_refl x : F64.same_value x x.
Proof. now left. Qed.


(** [p] shifted left by [n] bits. *)
Lemma iter_xO_mul (p n : positive) :
  Z.pos (Pos.iter xO p n) = Z.pos p * 2 ^ Z.pos n.
Proof.
  induction n as [|n IH] using Pos.peano_ind.
  - simpl. lia.
  - rewrite Pos.iter_succ, Pos2Z.inj_succ, Z.pow_succ_r by lia.
    rewrite Pos2Z.inj_xO, IH. lia.
Qed.

Lemma digits_iter_xO (p n : positive) :
  Z.pos (digits2_pos (Pos.iter xO p n)) = Z.pos (digits2_pos p) + Z.pos n.
Proof.
  induction n as [|n IH] using Pos.peano_ind.
  - simpl. lia.
  - rewrite Pos.iter_succ. cbn [digits2_pos]. rewrite Pos2Z.inj_succ, IH. lia.
Qed.

Lemma digits_bounds (p : positive) :
  2 ^ (Z.pos (digits2_pos p) - 1) <= Z.pos p < 2 ^ Z.pos (digits2_pos p).
Proof.
  induction p as [p IH|p IH|]; cbn [digits2_pos].
  - rewrite Pos2Z.inj_succ.
    set (d := Z.pos (digits2_pos p)) in *. assert (0 < d) by (unfold d; lia).
    replace (Z.succ d - 1) with (Z.succ (d - 1)) by lia.
    rewrite (Z.pow_succ_r 2 (d - 1)), (Z.pow_succ_r 2 d) by lia. lia.
  - rewrite Pos2Z.inj_succ.
    set (d := Z.pos (digits2_pos p)) in *. assert (0 < d) by (unfold d; lia).
    replace (Z.succ d - 1) with (Z.succ (d - 1)) by lia.
    rewrite (Z.pow_succ_r 2 (d - 1)), (Z.pow_succ_r 2 d) by lia. lia.
  - simpl. lia.
Qed.

(** The number of digits is determined by the bounds. *)
Lemma digits_unique (p : positive) (d : Z) :
  2 ^ (d - 1) <= Z.pos p < 2 ^ d -> 0 < d -> Z.pos (digits2_pos p) = d.
Proof.
  intros [Hlo Hhi] Hd. pose proof (digits_bounds p) as [Hlo' Hhi'].
  set (d' := Z.pos (digits2_pos p)) in *. assert (0 < d') by (unfold d'; lia).
  destruct (Z.lt_trichotomy d' d) as [Hlt|[Heq|Hgt]]; [|done|].
  - exfalso. assert (2 ^ d' <= 2 ^ (d - 1)) by (apply Z.pow_le_mono_r; lia). lia.
  - exfalso. assert (2 ^ d <= 2 ^ (d' - 1)) by (apply Z.pow_le_mono_r; lia). lia.
Qed.

Lemma iter_pos_nat {A} (f : A -> A) (n : positive) (x : A) :
  SpecFloat.iter_pos f n x = Nat.iter (Pos.to_nat n) f x.
Proof.
  revert x. induction n as [n IH|n IH|]; intros x; cbn [SpecFloat.iter_pos].
  - rewrite !IH. rewrite Pos2Nat.inj_xI. 
    replace (S (2 * Pos.to_nat n))%nat with (Pos.to_nat n + (Pos.to_nat n + 1))%nat by lia.
    rewrite !Nat.iter_add. simpl. reflexivity.
  - rewrite !IH. rewrite Pos2Nat.inj_xO.
    replace (2 * Pos.to_nat n)%nat with (Pos.to_nat n + Pos.to_nat n)%nat by lia.
    now rewrite Nat.iter_add.
  - reflexivity.
Qed.

(** Dropping [n] low bits that are all zero is exact. *)
Lemma shr_exact_nat (n : nat) (m : positive) :
  Nat.iter n shr_1
    {| shr_m := Z.pos m * 2 ^ Z.of_nat n; shr_r := false; shr_s := false |}
  = {| shr_m := Z.pos m; shr_r := false; shr_s := false |}.
Proof.
  revert m. induction n as [|n IH]; intros m.
  - simpl. f_equal. lia.
  - rewrite Nat.iter_succ_r.
    replace (Z.pos m * 2 ^ Z.of_nat (S n)) with (Z.pos (m~0) * 2 ^ Z.of_nat n).
    2:{ rewrite Nat2Z.inj_succ, Z.pow_succ_r by lia. lia. }
    assert (E : exists q, Z.pos m~0 * 2 ^ Z.of_nat n = Z.pos q~0 /\ Z.pos q = Z.pos m * 2 ^ Z.of_nat n).
    { destruct (Z.pos m * 2 ^ Z.of_nat n) as [|q|q] eqn:Eq; try lia.
      exists q. split; lia. }
    destruct E as (q & E1 & E2). rewrite E1. cbn [shr_1 orb]. rewrite E2. apply IH.
Qed.


Lemma digits_le_53 (p : positive) :
  Z.pos p < 2 ^ 53 -> 0 < Z.pos (digits2_pos p) <= 53.
Proof.
  intros Hp. pose proof (digits_bounds p) as [Hlo _]. split; [lia|].
  destruct (Z_le_gt_dec (Z.pos (digits2_pos p)) 53) as [|Hgt]; [done|exfalso].
  assert (2 ^ 53 <= 2 ^ (Z.pos (digits2_pos p) - 1)) by (apply Z.pow_le_mono_r; lia).
  lia.
Qed.

Lemma digits_scaled (p q : positive) (k : Z) :
  0 <= k -> Z.pos q = Z.pos p * 2 ^ k ->
  Z.pos (digits2_pos q) = Z.pos (digits2_pos p) + k.
Proof.
  intros Hk Hq. pose proof (digits_bounds p) as [Hlo Hhi].
  set (d := Z.pos (digits2_pos p)) in *. assert (0 < d) by (unfold d; lia).
  apply digits_unique; [|lia]. rewrite Hq.
  replace (d + k - 1) with ((d - 1) + k) by lia.
  rewrite !Z.pow_add_r by lia. 
  assert (0 < 2 ^ k) by (apply Z.pow_pos_nonneg; lia). nia.
Qed.

(** The 53-bit mantissa of [p]. *)
Lemma mantissa_53 (p : positive) :
  Z.pos p < 2 ^ 53 ->
  let c := Z.to_pos (Z.pos p * 2 ^ (53 - Z.pos (digits2_pos p))) in
  Z.pos c = Z.pos p * 2 ^ (53 - Z.pos (digits2_pos p)) /\
  bounded F64.prec F64.emax c (Z.pos (digits2_pos p) - 53) = true.
Proof.
  intros Hp c. pose proof (digits_le_53 p Hp) as Hd.
  set (d := Z.pos (digits2_pos p)) in *.
  assert (Hc : Z.pos c = Z.pos p * 2 ^ (53 - d)).
  { unfold c. rewrite Z2Pos.id; [done|].
    assert (0 < 2 ^ (53 - d)) by (apply Z.pow_pos_nonneg; lia). lia. }
  split; [exact Hc|].
  unfold bounded, canonical_mantissa.
  rewrite (digits_scaled p c (53 - d)) by (fold d; lia). fold d.
  apply andb_true_iff. split.
  - apply Z.eqb_eq. unfold fexp, emin, F64.prec, F64.emax. lia.
  - apply Z.leb_le. unfold F64.prec, F64.emax. lia.
Qed.

(** An exact result whose mantissa carries [j] zero bits too many is
    rounded to the mantissa without them. *)
Lemma round_exact s (c q : positive) (j e : Z) :
  bounded F64.prec F64.emax c (e + j) = true ->
  0 <= j -> Z.pos q = Z.pos c * 2 ^ j ->
  binary_round_aux F64.prec F64.emax s (Z.pos q) e loc_Exact
  = S754_finite s c (e + j).
Proof.
  intros Hb Hj Hq. pose proof Hb as Hb'. unfold bounded, canonical_mantissa in Hb.
  apply andb_true_iff in Hb as [Hc He]. apply Z.eqb_eq in Hc.
  unfold binary_round_aux. unfold shr_fexp at 1. cbn [Zdigits2 shr_record_of_loc].
  rewrite (digits_scaled c q j Hj Hq).
  replace (Z.pos (digits2_pos c) + j + e) with (Z.pos (digits2_pos c) + (e + j)) by lia.
  rewrite Hc. replace (e + j - e) with j by lia.
  destruct j as [|jp|jp]; [| |lia].
  - cbn [shr]. rewrite Z.add_0_r in *. rewrite Z.pow_0_r, Z.mul_1_r in Hq.
    injection Hq as ->. cbn [shr_m loc_of_shr_record round_nearest_even].
    apply round_finish, Hb'.
  - cbn [shr]. rewrite iter_pos_nat, Hq, <- (positive_nat_Z jp), shr_exact_nat.
    cbn [shr_m loc_of_shr_record round_nearest_even]. rewrite positive_nat_Z.
    apply round_finish, Hb'.
Qed.

Lemma shl_align_fst (m : positive) (e ez : Z) :
  ez <= e -> Z.pos (fst (shl_align m e ez)) = Z.pos m * 2 ^ (e - ez).
Proof.
  intros He. unfold shl_align. destruct (ez - e) as [|d|d] eqn:E; try lia.
  - replace (e - ez) with 0 by lia. cbn [fst]. lia.
  - cbn [fst]. rewrite iter_xO_mul. f_equal. f_equal. lia.
Qed.

(** Rounding [p * 2^k] at exponent [-k] gives the binary64 value of [p]. *)
Lemma round_scaled s (p q : positive) (k : Z) :
  Z.pos p < 2 ^ 53 -> 0 <= k -> Z.pos q = Z.pos p * 2 ^ k ->
  binary_round F64.prec F64.emax s q (- k)
  = S754_finite s (Z.to_pos (Z.pos p * 2 ^ (53 - Z.pos (digits2_pos p))))
      (Z.pos (digits2_pos p) - 53).
Proof.
  intros Hp Hk Hq. destruct (mantissa_53 p Hp) as [Hc Hb].
  pose proof (digits_le_53 p Hp) as Hd.
  set (c := Z.to_pos _) in *. set (d := Z.pos (digits2_pos p)) in *.
  unfold binary_round. rewrite (digits_scaled p q k Hk Hq). fold d.
  replace (fexp F64.prec F64.emax (d + k + - k)) with (d - 53)
    by (unfold fexp, emin, F64.prec, F64.emax; lia).
  unfold shl_align. destruct (d - 53 - - k) as [|j|j] eqn:E.
  - transitivity (S754_finite s c (- k + 0)); [|f_equal; lia].
    apply round_exact; [|lia|].
    + now replace (- k + 0) with (d - 53) by lia.
    + rewrite Hq, Hc, Z.pow_0_r. replace k with (53 - d) by lia. lia.
  - transitivity (S754_finite s c (- k + Z.pos j)); [|f_equal; lia].
    apply round_exact; [|lia|].
    + now replace (- k + Z.pos j) with (d - 53) by lia.
    + rewrite Hq, Hc. replace k with (53 - d + Z.pos j) by lia.
      rewrite Z.pow_add_r by lia. lia.
  - transitivity (S754_finite s c (d - 53 + 0)); [|f_equal; lia].
    apply round_exact; [|lia|].
    + now rewrite Z.add_0_r.
    + rewrite iter_xO_mul, Hq, Hc, Z.pow_0_r.
      replace (53 - d) with (k + Z.pos j) by lia.
      rewrite Z.pow_add_r by lia. lia.
Qed.

Lemma normalize_scaled (z k : Z) :
  Z.abs z < 2 ^ 53 -> 0 <= k ->
  binary_normalize F64.prec F64.emax (z * 2 ^ k) (- k) false = int_float z.
Proof.
  intros Hz Hk. assert (Hpow : 0 < 2 ^ k) by (apply Z.pow_pos_nonneg; lia).
  destruct z as [|p|p].
  - reflexivity.
  - destruct (Z.pos p * 2 ^ k) as [|q|q] eqn:Eq; try lia.
    cbn [binary_normalize int_float Z.abs Zdigits2].
    apply (round_scaled false p q k); [lia|done|lia].
  - destruct (Z.neg p * 2 ^ k) as [|q|q] eqn:Eq; try lia.
    cbn [binary_normalize int_float Z.abs Zdigits2].
    apply (round_scaled true p q k); [lia|done|lia].
Qed.

(** Conversion from an integer below 2^53 in magnitude. *)
Lemma of_int_eq (z : Z) : Z.abs z < 2 ^ 53 -> F64.of_int z = int_float z.
Proof.
  intros Hz. unfold F64.of_int.
  rewrite <- (normalize_scaled z 0 Hz) by lia.
  now rewrite Z.pow_0_r, Z.mul_1_r.
Qed.

Lemma int_float_finite (z : Z) :
  z <> 0 -> Z.abs z < 2 ^ 53 ->
  exists m d,
    int_float z = S754_finite (z <? 0) m (d - 53) /\
    0 < d <= 53 /\ Z.pos m = Z.abs z * 2 ^ (53 - d) /\
    bounded F64.prec F64.emax m (d - 53) = true /\
    2 ^ (d - 1) <= Z.abs z < 2 ^ d /\
    Z.pos (digits2_pos m) = 53.
Proof.
  intros Hz Hb. destruct z as [|p|p]; [done| |];
    (exists (Z.to_pos (Z.pos p * 2 ^ (53 - Z.pos (digits2_pos p)))), (Z.pos (digits2_pos p));
     destruct (mantissa_53 p ltac:(lia)) as [Hc Hbd];
     pose proof (digits_le_53 p ltac:(lia)) as Hd;
     split; [reflexivity|]; split; [exact Hd|]; split; [exact Hc|];
     split; [exact Hbd|]; split; [apply (digits_bounds p)|];
     rewrite (digits_scaled p _ (53 - Z.pos (digits2_pos p))); lia).
Qed.

Lemma cond_Zopp_abs (z x : Z) : 0 <= x -> cond_Zopp (z <? 0) (Z.abs z * x) = z * x.
Proof.
  intros Hx. unfold cond_Zopp. destruct (Z.ltb_spec z 0); lia.
Qed.

(** Integers add exactly as long as the sum stays below 2^53. *)
Lemma add_int (a b : Z) :
  Z.abs a < 2 ^ 53 -> Z.abs b < 2 ^ 53 -> Z.abs (a + b) < 2 ^ 53 ->
  F64.add (int_float a) (int_float b) = int_float (a + b).
Proof.
  intros Ha Hb Hab.
  destruct (Z.eq_dec a 0) as [->|Ha0].
  { rewrite Z.add_0_l. destruct b; reflexivity. }
  destruct (Z.eq_dec b 0) as [->|Hb0].
  { rewrite Z.add_0_r. destruct a; reflexivity. }
  destruct (int_float_finite a Ha0 Ha) as (ma & da & -> & Hda & Hma & _).
  destruct (int_float_finite b Hb0 Hb) as (mb & db & -> & Hdb & Hmb & _).
  unfold F64.add, SFadd.
  set (ez := Z.min (da - 53) (db - 53)).
  assert (Hez : ez <= 0) by (unfold ez; lia).
  rewrite !shl_align_fst by (unfold ez; lia).
  rewrite Hma, Hmb, <- !Z.mul_assoc, <- !Z.pow_add_r by lia.
  replace (53 - da + (da - 53 - ez)) with (- ez) by lia.
  replace (53 - db + (db - 53 - ez)) with (- ez) by lia.
  assert (0 < 2 ^ (- ez)) by (apply Z.pow_pos_nonneg; lia).
  rewrite !cond_Zopp_abs by lia. rewrite <- Z.mul_add_distr_r.
  replace ez with (- (- ez)) at 2 by lia.
  apply normalize_scaled; [done|lia].
Qed.

Lemma new_location_exact (n : Z) : new_location n 0 = loc_Exact.
Proof.
  unfold new_location, new_location_even, new_location_odd.
  now destruct (Z.even n).
Qed.

(** An integer divided by a positive integer that divides it. *)
Lemma div_int (a n : Z) :
  Z.abs a < 2 ^ 53 -> 0 < n < 2 ^ 53 -> (n | a) ->
  F64.div (int_float a) (int_float n) = int_float (a / n).
Proof.
  intros Ha Hn [c Hc]. subst a. rewrite Z.div_mul by lia.
  destruct (Z.eq_dec c 0) as [->|Hc0].
  { destruct n; try lia. reflexivity. }
  assert (Hcb : Z.abs c < 2 ^ 53) by nia.
  assert (Hcn0 : c * n <> 0) by nia.
  destruct (int_float_finite (c * n) Hcn0 Ha)
    as (ma & da & -> & Hda & Hma & _ & Hba & Hdma).
  destruct (int_float_finite n ltac:(lia) ltac:(lia))
    as (mn & dn & -> & Hdn & Hmn & _ & Hbn & Hdmn).
  destruct (int_float_finite c Hc0 Hcb)
    as (mc & dc & -> & Hdc & Hmc & Hbc & Hbdc & _).
  replace (n <? 0) with false by (symmetry; apply Z.ltb_ge; lia).
  replace (c * n <? 0) with (c <? 0).
  2:{ destruct (Z.ltb_spec c 0), (Z.ltb_spec (c * n) 0); try done; nia. }
  rewrite Z.abs_mul in Hma, Hba. rewrite (Z.abs_eq n) in Hma, Hmn, Hba, Hbn by lia.
  (* the product has at most as many digits as its factors together *)
  assert (Hj : 0 <= dn + dc - da).
  { destruct (Z_le_gt_dec da (dn + dc)) as [|Hgt]; [lia|exfalso].
    assert (2 ^ (dc + dn) <= 2 ^ (da - 1)) by (apply Z.pow_le_mono_r; lia).
    rewrite Z.pow_add_r in * by lia. nia. }
  unfold F64.div, SFdiv, SFdiv_core_binary. cbn [Zdigits2].
  rewrite Hdma, Hdmn, xorb_false_r.
  replace (Z.min (fexp F64.prec F64.emax (53 + (da - 53) - (53 + (dn - 53))))
             (da - 53 - (dn - 53))) with (da - dn - 53)
    by (unfold fexp, emin, F64.prec, F64.emax; lia).
  replace (da - 53 - (dn - 53) - (da - dn - 53)) with 53 by lia.
  rewrite Z.shiftl_mul_pow2 by lia.
  change IntDef.Z.div_eucl with Z.div_eucl.
  rewrite (div_eucl_exact _ _ (Z.pos mc * 2 ^ (dn + dc - da))).
  - rewrite new_location_exact.
    assert (0 < 2 ^ (dn + dc - da)) by (apply Z.pow_pos_nonneg; lia).
    destruct (Z.pos mc * 2 ^ (dn + dc - da)) as [|q|q] eqn:Eq; try lia.
    transitivity (S754_finite (c <? 0) mc (da - dn - 53 + (dn + dc - da)));
      [|f_equal; lia].
    apply round_exact; [|lia|lia].
    now replace (da - dn - 53 + (dn + dc - da)) with (dc - 53) by lia.
  - lia.
  - rewrite Hma, Hmc, Hmn.
    replace (2 ^ 53) with (2 ^ (53 - dc) * 2 ^ dc) by (rewrite <- Z.pow_add_r by lia; f_equal; lia).
    replace (2 ^ (53 - da)) with (2 ^ (53 - da)) by done.
    assert (E : 2 ^ (53 - da) * 2 ^ dc = 2 ^ (dn + dc - da) * 2 ^ (53 - dn)).
    { rewrite <- !Z.pow_add_r by lia. f_equal. lia. }
    nia.
Qed.

(** [-0.0 + x] is [x]. *)
Lemma add_neg_zero_l x : F64.add F64.neg_zero x = x.
Proof. now destruct x as [[]| | |]. Qed.

Lemma add_zero_unsigned x : F64.add F64.zero x = F64.unsigned_zero x.
Proof. now destruct x as [[]| | |]. Qed.

(** One candidate: each component goes through [0.0 + x] and [/ 1.0]. *)
Lemma mean_of_one x :
  F64.valid x = true ->
  F64.div (F64.add F64.zero x) (Np.count 1) = F64.unsigned_zero x.
Proof.
  intros Hx. change (Np.count 1) with F64.one. rewrite add_zero_unsigned.
  apply div_one. now destruct x.
Qed.

Lemma unsigned_zero_same x : F64.same_value (F64.unsigned_zero x) x.
Proof. destruct x; try (now left). right. now split. Qed.

Lemma unsigned_zero_id x : x <> F64.neg_zero -> F64.unsigned_zero x = x.
Proof. destruct x as [[]| | |]; try reflexivity. intros H. now elim H. Qed.

(** The value of the binary64 form of an integer. *)
Lemma to_Q_int (z : Z) :
  Z.abs z < 2 ^ 53 ->
  exists q, F64.to_Q (int_float z) = Some q /\ (q == inject_Z z)%Q.
Proof.
  intros Hz. destruct (Z.eq_dec z 0) as [->|Hz0].
  { exists 0%Q. split; reflexivity. }
  destruct (int_float_finite z Hz0 Hz) as (m & d & -> & Hd & Hm & _).
  cbn [F64.to_Q]. eexists. split; [reflexivity|].
  assert (Hs : cond_Zopp (z <? 0) (Z.pos m) = z * 2 ^ (53 - d)).
  { rewrite Hm. apply cond_Zopp_abs. apply Z.pow_nonneg. lia. }
  destruct (d - 53) as [|k|k] eqn:E; try lia.
  - rewrite Hs. replace (53 - d) with 0 by lia. now rewrite Z.pow_0_r, Z.mul_1_r.
  - rewrite Hs. replace (53 - d) with (Z.pos k) by lia.
    unfold Qeq. cbn [Qnum Qden inject_Z]. rewrite Pos2Z.inj_pow. lia.
Qed.

End Binary64.

(** ** The array and its mean *)

Section Numpy.

Lemma array_rectangular d v vs :
  rectangular d (v :: vs) -> Np.array (v :: vs) = Ok (Np.Matrix d (v :: vs)).
Proof.
  intros H. apply Forall_cons in H as [Hv Hvs]. unfold Np.array.
  replace (forallb _ vs) with true; [now rewrite Hv|].
  symmetry. apply forallb_forall. intros w Hw. apply Nat.eqb_eq.
  rewrite Forall_forall in Hvs. rewrite Hv. apply Hvs. now apply list_elem_of_In.
Qed.

Lemma array_ragged vs v w :
  v ∈ vs -> w ∈ vs -> length v ≠ length w ->
  Np.array vs = Raise (Np.inhomogeneous (length vs)).
Proof.
  intros Hv Hw Hne. destruct vs as [|r rest]; [by apply elem_of_nil in Hv|].
  unfold Np.array. destruct (forallb _ rest) eqn:E; [|done].
  exfalso. rewrite forallb_forall in E.
  assert (Hall : forall u, u ∈ r :: rest -> length u = length r).
  { intros u [->|Hu]%elem_of_cons; [done|].
    apply Nat.eqb_eq, E. now apply list_elem_of_In. }
  rewrite (Hall v Hv), (Hall w Hw) in Hne. done.
Qed.

Lemma add_row_length acc row d :
  length acc = d -> length row = d -> length (Np.add_row acc row) = d.
Proof. intros. unfold Np.add_row. rewrite length_zip_with. lia. Qed.

Lemma add_row_lookup acc row i x y :
  acc !! i = Some x -> row !! i = Some y ->
  Np.add_row acc row !! i = Some (F64.add x y).
Proof.
  intros Hx Hy. unfold Np.add_row. rewrite lookup_zip_with, Hx. simpl.
  now rewrite Hy.
Qed.

(** The accumulator keeps its length while rows are added ... *)
Lemma accumulate_length rows : forall acc d,
  length acc = d -> rectangular d rows ->
  length (fold_left Np.add_row rows acc) = d.
Proof.
  induction rows as [|r rows IH]; intros acc d Hacc Hrows; [done|].
  apply Forall_cons in Hrows as [Hr Hrows]. simpl.
  apply IH; [by apply add_row_length|done].
Qed.

(** ... and its [i]-th cell receives the [i]-th column, top to bottom. *)
Lemma accumulate_lookup rows : forall acc d i x,
  length acc = d -> rectangular d rows -> acc !! i = Some x ->
  fold_left Np.add_row rows acc !! i
  = Some (fold_left F64.add (column i rows) x).
Proof.
  induction rows as [|r rows IH]; intros acc d i x Hacc Hrows Hx; [done|].
  apply Forall_cons in Hrows as [Hr Hrows]. simpl.
  assert (Hi : i < length r).
  { rewrite Hr, <- Hacc. apply lookup_lt_is_Some. eauto. }
  destruct (lookup_lt_is_Some_2 r i Hi) as [y Hy]. rewrite Hy. simpl.
  apply (IH _ d); [by apply add_row_length|done|by apply add_row_lookup].
Qed.

(** A matrix of one column is its column. *)
Lemma concat_one_column rows :
  rectangular 1 rows -> concat rows = column 0 rows.
Proof.
  induction 1 as [|r rows Hr _ IH]; [done|].
  destruct r as [|x [|y r]]; try discriminate Hr. simpl. now rewrite IH.
Qed.

Lemma length_column i rows : length (column i rows) = length rows.
Proof. unfold column. apply length_fmap. Qed.

Lemma sum_axis0_one rows :
  rectangular 1 rows ->
  Np.sum_axis0 1 rows
  = [F64.add F64.zero (Np.pairwise_sum (length rows) (column 0 rows))].
Proof.
  intros H. unfold Np.sum_axis0. rewrite (concat_one_column rows H).
  now rewrite length_column.
Qed.

Lemma sum_axis0_rows d rows :
  d ≠ 1 -> Np.sum_axis0 d rows = fold_left Np.add_row rows (replicate d F64.zero).
Proof. intros Hd. now destruct d as [|[|d]]. Qed.

Lemma sum_axis0_length d rows :
  rectangular d rows -> length (Np.sum_axis0 d rows) = d.
Proof.
  intros H. destruct (decide (d = 1)) as [->|Hd]; [done|].
  rewrite sum_axis0_rows by done.
  apply accumulate_length; [apply length_replicate|done].
Qed.

Lemma sum_axis0_lookup_rows d rows i :
  d ≠ 1 -> rectangular d rows -> i < d ->
  Np.sum_axis0 d rows !! i = Some (fold_left F64.add (column i rows) F64.zero).
Proof.
  intros Hd Hrect Hi. rewrite sum_axis0_rows by done.
  apply (accumulate_lookup _ _ d);
    [apply length_replicate|done|now apply lookup_replicate_2].
Qed.

Lemma combine_rectangular d v vs :
  rectangular d (v :: vs) ->
  combine_embeddings (v :: vs)
  = Ok ((fun s => F64.div s (Np.count (length (v :: vs))))
          <$> Np.sum_axis0 d (v :: vs)).
Proof.
  intros H. unfold combine_embeddings.
  rewrite (array_rectangular d) by done. reflexivity.
Qed.

Lemma add_row_zero v :
  Np.add_row (replicate (length v) F64.zero) v = F64.add F64.zero <$> v.
Proof. induction v as [|x v IH]; [done|]. simpl. now f_equal. Qed.

(** One row: every component is added to [0.0] once. *)
Lemma sum_axis0_single v :
  Np.sum_axis0 (length v) [v] = F64.add F64.zero <$> v.
Proof.
  destruct (decide (length v = 1)) as [Hone|Hd].
  - destruct v as [|x [|y v]]; try discriminate Hone.
    cbn. now rewrite add_neg_zero_l.
  - rewrite sum_axis0_rows by done. cbn [fold_left]. apply add_row_zero.
Qed.

Lemma add_rows_swap a : forall b,
  length a = length b ->
  Np.add_row (Np.add_row (replicate (length a) F64.zero) a) b
  = Np.add_row (Np.add_row (replicate (length b) F64.zero) b) a.
Proof.
  induction a as [|x a IH]; intros [|y b] Hlen; try done.
  simpl in *. f_equal; [apply add_zero_swap|]. apply IH. lia.
Qed.

(** Two rows may come in either order. *)
Lemma sum_axis0_swap a b :
  length b = length a ->
  Np.sum_axis0 (length b) [b; a] = Np.sum_axis0 (length a) [a; b].
Proof.
  intros Hlen. destruct (decide (length a = 1)) as [Hone|Hd].
  - destruct a as [|x [|? a]]; try discriminate Hone.
    destruct b as [|y [|? b]]; try discriminate Hlen.
    cbn. rewrite !add_neg_zero_l. now rewrite (add_comm y x).
  - rewrite !sum_axis0_rows by congruence. cbn [fold_left].
    now rewrite (add_rows_swap b a Hlen).
Qed.

Lemma combine_swap a b :
  combine_embeddings [a; b] = combine_embeddings [b; a].
Proof.
  unfold combine_embeddings, Np.array. simpl.
  rewrite (Nat.eqb_sym (length a) (length b)).
  destruct (Nat.eqb_spec (length b) (length a)) as [Hlen|]; [|done].
  simpl. now rewrite sum_axis0_swap.
Qed.

(** *** Pairwise summation: enough fuel *)

Lemma halves_shorter (n : nat) :
  128 < n -> 0 < n / 2 - (n / 2) mod 8 < n.
Proof.
  intros. pose proof (Nat.div_mod_eq n 2).
  pose proof (Nat.mod_upper_bound n 2 ltac:(lia)).
  pose proof (Nat.mod_upper_bound (n / 2) 8 ltac:(lia)). lia.
Qed.

(** The sum does not depend on the fuel once there is as much of it as
    the list is long. *)
Lemma pairwise_sum_fuel (fuel : nat) : forall (fuel' : nat) (xs : list float),
  length xs <= fuel -> length xs <= fuel' ->
  Np.pairwise_sum fuel xs = Np.pairwise_sum fuel' xs.
Proof.
  induction fuel as [|fuel IH]; intros fuel' xs H H'.
  - destruct xs; [|simpl in H; lia]. now destruct fuel'.
  - destruct fuel' as [|fuel'].
    { destruct xs; [|simpl in H'; lia]. reflexivity. }
    cbn [Np.pairwise_sum].
    destruct (Nat.ltb_spec (length xs) 8); [done|].
    destruct (Nat.leb_spec (length xs) 128); [done|].
    pose proof (halves_shorter (length xs) ltac:(lia)).
    f_equal; apply IH; rewrite ?length_take, ?length_drop; lia.
Qed.

(** *** NaN in a sum *)

Lemma add_nan_l x : F64.add F64.nan x = F64.nan.
Proof. now destruct x. Qed.

Lemma add_nan_r x : F64.add x F64.nan = F64.nan.
Proof. now destruct x. Qed.

Lemma sum_from_nan xs : fold_left F64.add xs F64.nan = F64.nan.
Proof.
  induction xs as [|x xs IH]; [done|]. cbn [fold_left]. now rewrite add_nan_l.
Qed.

Lemma sum_with_nan xs : forall acc,
  F64.nan ∈ xs -> fold_left F64.add xs acc = F64.nan.
Proof.
  induction xs as [|x xs IH]; intros acc H; [by apply elem_of_nil in H|].
  cbn [fold_left]. apply elem_of_cons in H as [<-|H].
  - rewrite add_nan_r. apply sum_from_nan.
  - now apply IH.
Qed.

Lemma zip_add_nan (r block : list float) :
  length r = length block -> F64.nan ∈ r \/ F64.nan ∈ block ->
  F64.nan ∈ zip_with F64.add r block.
Proof.
  revert block. induction r as [|x r IH]; intros [|y block] Hlen H;
    try discriminate Hlen.
  - destruct H as [H|H]; by apply elem_of_nil in H.
  - cbn [zip_with]. simpl in Hlen.
    destruct H as [[<-|H]%elem_of_cons|[<-|H]%elem_of_cons].
    + rewrite add_nan_l. apply list_elem_of_here.
    + apply list_elem_of_further, IH; [lia|now left].
    + rewrite add_nan_r. apply list_elem_of_here.
    + apply list_elem_of_further, IH; [lia|now right].
Qed.

Lemma add_blocks_nan (blocks : nat) : forall (r xs : list float),
  length r = 8 -> 8 * blocks <= length xs ->
  F64.nan ∈ r \/ F64.nan ∈ xs ->
  length (Np.add_blocks blocks r xs).1 = 8 /\
  (F64.nan ∈ (Np.add_blocks blocks r xs).1 \/
   F64.nan ∈ (Np.add_blocks blocks r xs).2).
Proof.
  induction blocks as [|b IH]; intros r xs Hr Hxs H; [done|].
  cbn [Np.add_blocks].
  assert (Htake : length (take 8 xs) = 8) by (rewrite length_take; lia).
  apply IH.
  - rewrite length_zip_with. lia.
  - rewrite length_drop. lia.
  - destruct H as [H|H].
    + left. apply zip_add_nan; [lia|now left].
    + rewrite <- (take_drop 8 xs) in H. apply elem_of_app in H as [H|H].
      * left. apply zip_add_nan; [lia|now right].
      * now right.
Qed.

Lemma tree_nan (r : list float) (rest : list float) :
  length r = 8 -> F64.nan ∈ r \/ F64.nan ∈ rest ->
  match r with
  | [r0; r1; r2; r3; r4; r5; r6; r7] =>
      fold_left F64.add rest
        (F64.add (F64.add (F64.add r0 r1) (F64.add r2 r3))
                 (F64.add (F64.add r4 r5) (F64.add r6 r7)))
  | _ => F64.nan
  end = F64.nan.
Proof.
  intros Hr H.
  destruct r as [|r0 [|r1 [|r2 [|r3 [|r4 [|r5 [|r6 [|r7 [|? r]]]]]]]]];
    try discriminate Hr.
  destruct H as [H|H]; [|now apply sum_with_nan].
  repeat (apply elem_of_cons in H as [<-|H];
          [rewrite ?add_nan_l, ?add_nan_r; apply sum_from_nan|]).
  by apply elem_of_nil in H.
Qed.

Lemma sum_unrolled_nan (xs : list float) :
  8 <= length xs -> F64.nan ∈ xs -> Np.sum_unrolled xs = F64.nan.
Proof.
  intros Hlen H. unfold Np.sum_unrolled.
  pose proof (Nat.div_mod_eq (length xs) 8).
  pose proof (Nat.mod_upper_bound (length xs) 8 ltac:(lia)).
  destruct (add_blocks_nan (length xs / 8 - 1) (take 8 xs) (drop 8 xs))
    as [Hr Hnan].
  - rewrite length_take. lia.
  - rewrite length_drop. lia.
  - rewrite <- (take_drop 8 xs) in H. now apply elem_of_app in H.
  - destruct (Np.add_blocks _ _ _) as [r rest]. now apply tree_nan.
Qed.

Lemma pairwise_sum_nan (fuel : nat) : forall xs : list float,
  F64.nan ∈ xs -> Np.pairwise_sum fuel xs = F64.nan.
Proof.
  induction fuel as [|fuel IH]; intros xs H; cbn [Np.pairwise_sum];
    (destruct (Nat.ltb_spec (length xs) 8); [now apply sum_with_nan|]);
    (destruct (Nat.leb_spec (length xs) 128); [now apply sum_unrolled_nan|]).
  - now apply sum_unrolled_nan.
  - set (n2 := length xs / 2 - (length xs / 2) mod 8).
    rewrite <- (take_drop n2 xs) in H. apply elem_of_app in H as [H|H].
    + rewrite (IH _ H). apply add_nan_l.
    + rewrite (IH (drop n2 xs) H). apply add_nan_r.
Qed.

End Numpy.

(** ** Sums of integers *)

Section IntegerSums.
Local Open Scope Z_scope.

Lemma sum_abs_nonneg ks : 0 <= sum_abs ks.
Proof. induction ks as [|k ks IH]; [done|]. cbn. fold (sum_abs ks). lia. Qed.

Lemma sum_Z_le_abs ks : Z.abs (sum_Z ks) <= sum_abs ks.
Proof.
  induction ks as [|k ks IH]; [done|]. cbn. fold (sum_abs ks) (sum_Z ks). lia.
Qed.

Lemma sum_abs_app ks ks' : sum_abs (ks ++ ks') = sum_abs ks + sum_abs ks'.
Proof.
  induction ks as [|k ks IH]; [done|]. cbn. fold (sum_abs ks) (sum_abs (ks ++ ks')).
  lia.
Qed.

Lemma sum_Z_app ks ks' : sum_Z (ks ++ ks') = sum_Z ks + sum_Z ks'.
Proof.
  induction ks as [|k ks IH]; [done|]. cbn. fold (sum_Z ks) (sum_Z (ks ++ ks')).
  lia.
Qed.

Lemma sum_abs_split n ks : sum_abs (take n ks) + sum_abs (drop n ks) = sum_abs ks.
Proof. now rewrite <- sum_abs_app, take_drop. Qed.

Lemma sum_Z_split n ks : sum_Z (take n ks) + sum_Z (drop n ks) = sum_Z ks.
Proof. now rewrite <- sum_Z_app, take_drop. Qed.

Lemma of_int_ints ks :
  sum_abs ks < 2 ^ 53 -> F64.of_int <$> ks = int_float <$> ks.
Proof.
  induction ks as [|k ks IH]; [done|]. cbn. fold (sum_abs ks). intros H.
  pose proof (sum_abs_nonneg ks). f_equal; [apply of_int_eq; lia|apply IH; lia].
Qed.

Lemma fold_add_int ks : forall a,
  Z.abs a + sum_abs ks < 2 ^ 53 ->
  fold_left F64.add (int_float <$> ks) (int_float a) = int_float (a + sum_Z ks).
Proof.
  induction ks as [|k ks IH]; intros a H.
  - cbn. now rewrite Z.add_0_r.
  - cbn in *. fold (sum_abs ks) (sum_Z ks) in *.
    pose proof (sum_abs_nonneg ks).
    rewrite add_int by lia. rewrite IH by lia. f_equal. lia.
Qed.

Lemma sum_short_int ks :
  ks ≠ [] -> sum_abs ks < 2 ^ 53 ->
  Np.sum_short (int_float <$> ks) = int_float (sum_Z ks).
Proof.
  intros Hne H. destruct ks as [|k ks]; [done|].
  unfold Np.sum_short. cbn [fmap list_fmap fold_left].
  rewrite add_neg_zero_l. now apply fold_add_int.
Qed.

Lemma zip_add_int rs : forall bs,
  sum_abs rs + sum_abs bs < 2 ^ 53 ->
  zip_with F64.add (int_float <$> rs) (int_float <$> bs)
  = int_float <$> zip_with Z.add rs bs.
Proof.
  induction rs as [|r rs IH]; intros [|b bs] H; try done.
  cbn in *. fold (sum_abs rs) (sum_abs bs) in *.
  pose proof (sum_abs_nonneg rs). pose proof (sum_abs_nonneg bs).
  f_equal; [apply add_int; lia|apply IH; lia].
Qed.

Lemma zip_add_sums rs : forall bs,
  length rs = length bs ->
  sum_Z (zip_with Z.add rs bs) = sum_Z rs + sum_Z bs /\
  sum_abs (zip_with Z.add rs bs) <= sum_abs rs + sum_abs bs.
Proof.
  induction rs as [|r rs IH]; intros [|b bs] Hlen; try done.
  cbn in *. destruct (IH bs ltac:(lia)) as [E L].
  fold (sum_abs rs) (sum_abs bs) (sum_Z rs) (sum_Z bs)
       (sum_Z (zip_with Z.add rs bs)) (sum_abs (zip_with Z.add rs bs)) in *.
  lia.
Qed.

Lemma add_blocks_int (blocks : nat) : forall rs ks,
  length rs = 8%nat -> (8 * blocks <= length ks)%nat ->
  sum_abs rs + sum_abs ks < 2 ^ 53 ->
  exists rs' ks',
    Np.add_blocks blocks (int_float <$> rs) (int_float <$> ks)
    = (int_float <$> rs', int_float <$> ks') /\
    length rs' = 8%nat /\
    sum_Z rs' + sum_Z ks' = sum_Z rs + sum_Z ks /\
    sum_abs rs' + sum_abs ks' <= sum_abs rs + sum_abs ks.
Proof.
  induction blocks as [|b IH]; intros rs ks Hrs Hks H.
  - exists rs, ks. repeat split; done || lia.
  - cbn [Np.add_blocks]. rewrite <- fmap_take, <- fmap_drop.
    assert (Htake : length (take 8 ks) = 8%nat) by (rewrite length_take; lia).
    pose proof (sum_abs_split 8 ks) as Habs. pose proof (sum_Z_split 8 ks) as Hsum.
    pose proof (sum_abs_nonneg (drop 8 ks)). pose proof (sum_abs_nonneg (take 8 ks)).
    destruct (zip_add_sums rs (take 8 ks) ltac:(lia)) as [Ez Lz].
    rewrite zip_add_int by lia.
    destruct (IH (zip_with Z.add rs (take 8 ks)) (drop 8 ks))
      as (rs' & ks' & E & Hlen & Es & Ls).
    + rewrite length_zip_with. lia.
    + rewrite length_drop. lia.
    + lia.
    + exists rs', ks'. repeat split; [exact E|exact Hlen|lia|lia].
Qed.

Lemma tree_int rs ks :
  length rs = 8%nat -> sum_abs rs + sum_abs ks < 2 ^ 53 ->
  match int_float <$> rs with
  | [r0; r1; r2; r3; r4; r5; r6; r7] =>
      fold_left F64.add (int_float <$> ks)
        (F64.add (F64.add (F64.add r0 r1) (F64.add r2 r3))
                 (F64.add (F64.add r4 r5) (F64.add r6 r7)))
  | _ => F64.nan
  end = int_float (sum_Z rs + sum_Z ks).
Proof.
  intros Hr H.
  destruct rs as [|r0 [|r1 [|r2 [|r3 [|r4 [|r5 [|r6 [|r7 [|? rs]]]]]]]]];
    try discriminate Hr.
  cbn in H. fold (sum_abs ks) in H. pose proof (sum_abs_nonneg ks).
  cbn [fmap list_fmap]. rewrite !add_int by lia.
  rewrite fold_add_int by lia. f_equal. cbn. lia.
Qed.

Lemma sum_unrolled_int ks :
  (8 <= length ks)%nat -> sum_abs ks < 2 ^ 53 ->
  Np.sum_unrolled (int_float <$> ks) = int_float (sum_Z ks).
Proof.
  intros Hlen H. unfold Np.sum_unrolled.
  rewrite length_fmap, <- fmap_take, <- fmap_drop.
  pose proof (Nat.div_mod_eq (length ks) 8).
  pose proof (Nat.mod_upper_bound (length ks) 8 ltac:(lia)).
  pose proof (sum_abs_split 8 ks) as Habs. pose proof (sum_Z_split 8 ks) as Hsum.
  destruct (add_blocks_int (length ks / 8 - 1) (take 8 ks) (drop 8 ks))
    as (rs' & ks' & -> & Hr & Es & Ls).
  - rewrite length_take. lia.
  - rewrite length_drop. lia.
  - lia.
  - rewrite tree_int by (done || lia). f_equal. lia.
Qed.

Lemma pairwise_sum_int (fuel : nat) : forall ks,
  ks ≠ [] -> sum_abs ks < 2 ^ 53 ->
  Np.pairwise_sum fuel (int_float <$> ks) = int_float (sum_Z ks).
Proof.
  induction fuel as [|fuel IH]; intros ks Hne H; cbn [Np.pairwise_sum];
    rewrite length_fmap;
    (destruct (Nat.ltb_spec (length ks) 8); [now apply sum_short_int|]);
    (destruct (Nat.leb_spec (length ks) 128); [now apply sum_unrolled_int|]).
  - now apply sum_unrolled_int.
  - pose proof (halves_shorter (length ks) ltac:(lia)) as Hn2.
    set (n2 := (length ks / 2 - (length ks / 2) mod 8)%nat) in *.
    pose proof (sum_abs_split n2 ks) as Habs. pose proof (sum_Z_split n2 ks) as Hsum.
    pose proof (sum_abs_nonneg (take n2 ks)). pose proof (sum_abs_nonneg (drop n2 ks)).
    pose proof (sum_Z_le_abs (take n2 ks)). pose proof (sum_Z_le_abs (drop n2 ks)).
    pose proof (sum_Z_le_abs ks).
    rewrite <- fmap_take, <- fmap_drop. rewrite !IH.
    + rewrite add_int by lia. f_equal. lia.
    + intros E. apply (f_equal length) in E. rewrite length_drop in E. simpl in E. lia.
    + lia.
    + intros E. apply (f_equal length) in E. rewrite length_take in E. simpl in E. lia.
    + lia.
Qed.

(** The sum along axis 0 of integers is their sum. *)
Lemma sum_axis0_int (d : nat) (rows : list (list float)) (i : nat) (ks : list Z) :
  rows ≠ [] -> rectangular d rows -> (i < d)%nat ->
  column i rows = int_float <$> ks -> sum_abs ks < 2 ^ 53 ->
  Np.sum_axis0 d rows !! i = Some (int_float (sum_Z ks)).
Proof.
  intros Hne Hrect Hi Hcol H. pose proof (sum_Z_le_abs ks).
  destruct (decide (d = 1%nat)) as [->|Hd].
  - rewrite sum_axis0_one by done. destruct i; [|lia]. cbn [lookup list_lookup].
    rewrite Hcol, pairwise_sum_int; [| |done].
    + f_equal. change F64.zero with (int_float 0). rewrite add_int; [done|lia..].
    + intros ->. apply (f_equal length) in Hcol. rewrite length_column in Hcol.
      now destruct rows.
  - rewrite sum_axis0_lookup_rows by done. rewrite Hcol. f_equal.
    change F64.zero with (int_float 0). rewrite fold_add_int; [done|lia].
Qed.

Lemma values_ints ks :
  sum_abs ks < 2 ^ 53 ->
  exists qs, values (int_float <$> ks) = Some qs /\
             length qs = length ks /\
             (fold_right Qplus 0 qs == inject_Z (sum_Z ks))%Q.
Proof.
  induction ks as [|k ks IH]; intros H.
  - exists []. repeat split; reflexivity.
  - cbn in H. fold (sum_abs ks) in H. pose proof (sum_abs_nonneg ks).
    destruct (IH ltac:(lia)) as (qs & Hqs & Hlen & Hsum).
    destruct (to_Q_int k ltac:(lia)) as (q & Hq & Eq).
    exists (q :: qs). cbn [fmap list_fmap values]. rewrite Hq, Hqs.
    split; [reflexivity|]. split; [simpl; lia|].
    cbn [fold_right sum_Z]. fold (sum_Z ks). rewrite Hsum, Eq.
    now rewrite inject_Z_plus.
Qed.

(** One component of the mean of integers, when the number of vectors
    divides their sum. *)
Lemma mean_component_int (n : nat) (ks : list Z) :
  length ks = n -> 0 < Z.of_nat n < 2 ^ 53 -> sum_abs ks < 2 ^ 53 ->
  (Z.of_nat n | sum_Z ks) ->
  F64.div (int_float (sum_Z ks)) (Np.count n) = int_float (sum_Z ks / Z.of_nat n) /\
  is_mean_of (int_float (sum_Z ks / Z.of_nat n)) (int_float <$> ks).
Proof.
  intros Hlen Hn H Hdiv. pose proof (sum_Z_le_abs ks). split.
  - unfold Np.count. rewrite of_int_eq by lia. apply div_int; [lia|lia|done].
  - destruct Hdiv as [c Hc].
    assert (Hcb : Z.abs c < 2 ^ 53) by nia.
    destruct (to_Q_int c Hcb) as (q & Hq & Eq).
    destruct (values_ints ks H) as (qs & Hqs & Hlq & Hsum).
    exists q, qs. rewrite Hc, Z.div_mul by lia.
    split; [exact Hq|]. split; [exact Hqs|].
    unfold arithmetic_mean. rewrite Hsum, Eq, Hlq, Hlen, Hc.
    rewrite inject_Z_mult. symmetry. apply Qdiv_mult_l.
    intros E. apply (inject_Z_injective (Z.of_nat n) 0) in E. lia.
Qed.

End IntegerSums.

(** ** The combination step *)

Section Combine.

(** Vectors of integers: the mean is exact. *)
Lemma combine_ints (vs : list (list float)) (d : nat) :
  vs ≠ [] -> rectangular d vs -> (Z.of_nat (length vs) < 2 ^ 53)%Z ->
  (forall i, i < d ->
     exists ks : list Z,
       column i vs = F64.of_int <$> ks /\ (sum_abs ks < 2 ^ 53)%Z /\
       (Z.of_nat (length vs) | sum_Z ks)%Z) ->
  exists r, combine_embeddings vs = Ok r /\ length r = d /\
    forall i, i < d -> exists x, r !! i = Some x /\ is_mean_of x (column i vs).
Proof.
  intros Hne Hrect Hn Hint. destruct vs as [|v vs]; [done|].
  eexists. split; [apply (combine_rectangular d), Hrect|]. split.
  { rewrite length_fmap. now apply sum_axis0_length. }
  intros i Hi. destruct (Hint i Hi) as (ks & Hcol & Hks & Hdiv).
  rewrite (of_int_ints ks Hks) in Hcol.
  assert (Hlen : length ks = length (v :: vs)).
  { apply (f_equal length) in Hcol. rewrite length_column, length_fmap in Hcol.
    now symmetry. }
  destruct (mean_component_int (length (v :: vs)) ks Hlen) as [Hdivide Hmean];
    [simpl length in *; lia|done|done|].
  exists (int_float (sum_Z ks / Z.of_nat (length (v :: vs)))). split.
  - rewrite list_lookup_fmap.
    rewrite (sum_axis0_int d (v :: vs) i ks) by done.
    cbn [fmap option_fmap option_map]. now rewrite Hdivide.
  - now rewrite Hcol.
Qed.

(** One candidate. *)
Lemma combine_one (v : list float) :
  Forall (fun x => F64.valid x = true) v ->
  combine_embeddings [v] = Ok (F64.unsigned_zero <$> v).
Proof.
  intros Hv. rewrite (combine_rectangular (length v)) by now constructor.
  rewrite sum_axis0_single, <- list_fmap_compose. f_equal.
  apply Forall_fmap_ext_1. eapply Forall_impl; [exact Hv|].
  intros x Hx. cbn. now apply mean_of_one.
Qed.

End Combine.




(** C8. For a non-empty list of vectors that all have length [d], the
    combined embedding has length exactly [d]. *)
Theorem combine_embeddings_length (vs : list (list float)) (d : nat) :
  vs ≠ [] -> rectangular d vs ->
  exists r, combine_embeddings vs = Ok r /\ length r = d.
Proof.
  intros Hne Hrect. destruct vs as [|v vs]; [done|].
  eexists. split; [apply (combine_rectangular d), Hrect|].
  rewrite length_fmap. now apply sum_axis0_length.
Qed.

Lemma combine_embeddings_length_witness :
  Stub.candidates ≠ [] /\ rectangular 2 Stub.candidates /\
  exists r, combine_embeddings Stub.candidates = Ok r /\ length r = 2.
Proof.
  assert (Hne : Stub.candidates ≠ []) by discriminate.
  assert (Hrect : rectangular 2 Stub.candidates) by (repeat constructor).
  split; [exact Hne|]. split; [exact Hrect|].
  exact (combine_embeddings_length Stub.candidates 2 Hne Hrect).
Defined.

(** C9. If two of the vectors have different lengths, the combination
    fails inside numpy (the array cannot be built) and returns no vector. *)
Theorem combine_embeddings_ragged_fails (vs : list (list float)) (v w : list float) :
  v ∈ vs -> w ∈ vs -> length v ≠ length w ->
  combine_embeddings vs = Raise (Np.inhomogeneous (length vs)) /\
  exn_site (Np.inhomogeneous (length vs)) = numpy_raise.
Proof.
  intros Hv Hw Hne. split; [|reflexivity].
  unfold combine_embeddings. now rewrite (array_ragged vs v w).
Qed.

Lemma combine_embeddings_ragged_fails_witness :
  combine_embeddings [[Stub.f 1; Stub.f 2]; [Stub.f 3]]
  = Raise (Np.inhomogeneous 2) /\
  exn_site (Np.inhomogeneous 2) = numpy_raise.
Proof.
  apply (combine_embeddings_ragged_fails [[Stub.f 1; Stub.f 2]; [Stub.f 3]]
           [Stub.f 1; Stub.f 2] [Stub.f 3]).
  - apply list_elem_of_here.
  - apply list_elem_of_further, list_elem_of_here.
  - discriminate.
Defined.

(** C5, as stated, fails: the vector [[-0.0]] comes back as [[0.0]], because
    the sum starts at [0.0] and [0.0 + -0.0] is [0.0]. *)
Lemma combine_embeddings_singleton_drops_zero_sign :
  Forall (fun x => F64.valid x = true) [F64.neg_zero] /\
  combine_embeddings [[F64.neg_zero]] = Ok [F64.zero] /\
  combine_embeddings [[F64.neg_zero]] ≠ Ok [F64.neg_zero].
Proof.
  split; [repeat constructor|]. split; [reflexivity|]. discriminate.
Qed.

(** C5, amended. Combining the single vector [v] returns [v] with every
    negative zero replaced by [0.0]: component by component the same
    number, and exactly [v] when no component is a negative zero. *)
Theorem combine_embeddings_singleton (v : list float) :
  Forall (fun x => F64.valid x = true) v ->
  combine_embeddings [v] = Ok (F64.unsigned_zero <$> v) /\
  Forall2 F64.same_value (F64.unsigned_zero <$> v) v /\
  (Forall (fun x => x ≠ F64.neg_zero) v -> combine_embeddings [v] = Ok v).
Proof.
  intros Hv. split; [now apply combine_one|]. split.
  - apply Forall2_fmap_l, Forall_Forall2_diag, Forall_forall.
    intros x _. apply unsigned_zero_same.
  - intros Hnz. rewrite (combine_one v Hv). f_equal.
    rewrite <- (list_fmap_id v) at 2. apply Forall_fmap_ext_1.
    eapply Forall_impl; [exact Hnz|]. intros x Hx. now apply unsigned_zero_id.
Qed.

Lemma combine_embeddings_singleton_witness :
  Forall (fun x => F64.valid x = true) [Stub.tenth; Stub.f 3] /\
  combine_embeddings [[Stub.tenth; Stub.f 3]] = Ok [Stub.tenth; Stub.f 3].
Proof.
  assert (Hv : Forall (fun x => F64.valid x = true) [Stub.tenth; Stub.f 3])
    by (repeat constructor).
  split; [exact Hv|].
  apply (combine_embeddings_singleton _ Hv).
  repeat constructor; discriminate.
Defined.

(** C6, as stated, fails: the three candidates [[0.1, 0.3]], [[0.2, 0.2]],
    [[0.3, 0.1]] combine to [[0.20000000000000004, 0.19999999999999998]],
    and in the reverse order to [[0.19999999999999998, 0.20000000000000004]]:
    binary64 addition is not associative. *)
Lemma combine_embeddings_order_dependent :
  Stub.candidates ≠ [] /\
  rectangular 2 Stub.candidates /\
  Stub.candidates ≡ₚ Stub.candidates_reversed /\
  combine_embeddings Stub.candidates_reversed ≠ combine_embeddings Stub.candidates.
Proof.
  split; [discriminate|]. split; [repeat constructor|]. split.
  - change Stub.candidates_reversed with (rev Stub.candidates).
    apply Permutation_rev.
  - vm_compute. discriminate.
Qed.

(** C6, amended. For a list of at most two vectors, every permutation of
    the list combines to the same result. *)
Theorem combine_embeddings_two_candidates_order (vs vs' : list (list float)) :
  vs ≡ₚ vs' -> length vs <= 2 ->
  combine_embeddings vs' = combine_embeddings vs.
Proof.
  intros Hperm Hlen. destruct vs as [|a [|b [|c vs]]].
  - now apply Permutation_nil in Hperm as ->.
  - now apply Permutation_length_1_inv in Hperm as ->.
  - apply Permutation_length_2_inv in Hperm as [-> | ->]; [done|].
    apply combine_swap.
  - simpl in Hlen. lia.
Qed.

Lemma combine_embeddings_two_candidates_order_witness :
  [[Stub.tenth; Stub.three_tenths]; [Stub.fifth; Stub.fifth]]
    ≡ₚ [[Stub.fifth; Stub.fifth]; [Stub.tenth; Stub.three_tenths]] /\
  length [[Stub.tenth; Stub.three_tenths]; [Stub.fifth; Stub.fifth]] <= 2 /\
  combine_embeddings [[Stub.fifth; Stub.fifth]; [Stub.tenth; Stub.three_tenths]]
  = combine_embeddings [[Stub.tenth; Stub.three_tenths]; [Stub.fifth; Stub.fifth]].
Proof.
  assert (Hperm : [[Stub.tenth; Stub.three_tenths]; [Stub.fifth; Stub.fifth]]
                    ≡ₚ [[Stub.fifth; Stub.fifth]; [Stub.tenth; Stub.three_tenths]])
    by apply perm_swap.
  assert (Hlen : length [[Stub.tenth; Stub.three_tenths]; [Stub.fifth; Stub.fifth]] <= 2)
    by apply le_n.
  split; [exact Hperm|]. split; [exact Hlen|].
  exact (combine_embeddings_two_candidates_order _ _ Hperm Hlen).
Defined.

(** ** Strings *)

Section Strings.






End Strings.

(** ** The embedder *)

Section Embedder.
Context `{LC : langchain}.

(** C7. [embed_documents] returns what the batch operation of the base
    embedding model returns for the same texts, with nothing applied to it:
    its vectors, as many and in the order it gave them, or its exception. *)
Theorem embed_documents_pass_through
    (self : HypotheticalDocumentEmbedder) (texts : list string) :
  embed_documents self texts
  = Embeddings_embed_documents (base_embeddings self) texts /\
  (forall vectors : list (list float),
     Embeddings_embed_documents (base_embeddings self) texts = Ok vectors ->
     embed_documents self texts = Ok vectors /\
     forall i, (embed_documents self texts ≫= fun r => Ok (r !! i))
               = Ok (vectors !! i)) /\
  (forall e : exn,
     Embeddings_embed_documents (base_embeddings self) texts = Raise e ->
     embed_documents self texts = Raise e).
Proof.
  split; [reflexivity|]. split.
  - intros vectors Hbase. unfold embed_documents. rewrite Hbase.
    split; [reflexivity|]. intros i. reflexivity.
  - intros e Hbase. unfold embed_documents. exact Hbase.
Qed.

(** C3. When a custom prompt is supplied, [from_llm] builds the chain on
    that prompt, whatever the prompt key is: the key does not change the
    result, an embedder that is returned has the custom prompt, and the
    only thing that can still fail is the validation of the other
    constructor arguments. *)
Theorem from_llm_custom_prompt_precedence
    (llm : BaseLanguageModel) (emb : Embeddings) (prompt_key : option string)
    (p : BasePromptTemplate) (kwargs : Kwargs) :
  from_llm llm emb prompt_key (Some p) kwargs
  = (options ← validate_kwargs kwargs;
     Ok {| base_embeddings := emb;
           llm_chain := {| llm := llm; prompt := p |};
           chain_options := options |}) /\
  from_llm llm emb prompt_key (Some p) kwargs
  = from_llm llm emb None (Some p) kwargs /\
  forall self : HypotheticalDocumentEmbedder,
    from_llm llm emb prompt_key (Some p) kwargs = Ok self ->
    prompt (llm_chain self) = p.
Proof.
  split; [reflexivity|]. split; [reflexivity|].
  intros self H. unfold from_llm in H. cbn [mbind result_bind] in H.
  destruct (validate_kwargs kwargs) as [options|e]; [|discriminate H].
  injection H as <-. reflexivity.
Qed.


(** C10. [embed_query] submits one prompt input, the dictionary that binds
    the first input key of the chain to the query text and nothing else,
    and embeds the texts of the first generation group of the answer. *)
Theorem embed_query_binds_first_key
    (self : HypotheticalDocumentEmbedder) (text k : string) (rest : list string) :
  input_keys self = k :: rest ->
  embed_query self text
  = (result ← LLMChain_generate (llm_chain self) [ {[ k := text ]} ];
     generation ← getitem (generations result) 0;
     embeddings ← embed_documents self (Generation_text <$> generation);
     combine_embeddings embeddings) /\
  dom ({[ k := text ]} : gmap string string) = {[ k ]} /\
  forall (result : LLMResult) (first : list Generation)
         (others : list (list Generation)),
    LLMChain_generate (llm_chain self) [ {[ k := text ]} ] = Ok result ->
    generations result = first :: others ->
    embed_query self text
    = (embeddings ← embed_documents self (Generation_text <$> first);
       combine_embeddings embeddings).
Proof.
  intros Hkeys. unfold input_keys in Hkeys.
  assert (E : embed_query self text
              = (result ← LLMChain_generate (llm_chain self) [ {[ k := text ]} ];
                 generation ← getitem (generations result) 0;
                 embeddings ← embed_documents self (Generation_text <$> generation);
                 combine_embeddings embeddings)).
  { unfold embed_query. now rewrite Hkeys. }
  split; [exact E|]. split; [apply dom_singleton_L|].
  intros result first others Hgen Hfirst. rewrite E, Hgen.
  cbn [mbind result_bind]. now rewrite Hfirst.
Qed.

(** C2, amended. When the chain returns no candidate for the submitted
    prompt, and the embedding model returns no vector for no document,
    [embed_query] fails with the [TypeError] that [list] raises on the
    scalar mean of the empty array; it returns no vector. *)
Theorem embed_query_no_candidates_fails
    (self : HypotheticalDocumentEmbedder) (text k : string)
    (result : LLMResult) (others : list (list Generation)) :
  input_keys self !! 0 = Some k ->
  LLMChain_generate (llm_chain self) [ {[ k := text ]} ] = Ok result ->
  generations result = [] :: others ->
  Embeddings_embed_documents (base_embeddings self) [] = Ok [] ->
  embed_query self text = Raise Np.not_iterable /\
  exn_cls Np.not_iterable = TypeError /\
  exn_site Np.not_iterable = builtin_raise.
Proof.
  intros Hkey Hgen Hnone Hemb. split; [|done].
  unfold embed_query, getitem, embed_documents. unfold input_keys in Hkey.
  rewrite Hkey. cbn [mbind result_bind]. rewrite Hgen. cbn [mbind result_bind].
  rewrite Hnone. cbn [lookup list_lookup mbind result_bind fmap list_fmap].
  rewrite Hemb. reflexivity.
Qed.

End Embedder.

(** ** The embedder on the test doubles *)

(** The scenario of the specification: completions "doc1" and "doc2",
    embedded as [[1.0, 3.0]] and [[3.0, 1.0]], give [[2.0, 2.0]]. *)
Example embed_query_end_to_end :
  embed_query (Stub.hyde ["doc1"; "doc2"] Stub.web_search) "what is X"
  = Ok [Stub.f 2; Stub.f 2].
Proof. reflexivity. Qed.

Lemma embed_documents_pass_through_witness :
  Embeddings_embed_documents Stub.docs ["a"; "b"] = Ok [[Stub.f 1]; [Stub.f 2]] /\
  embed_documents (Stub.hyde [] Stub.web_search) ["a"; "b"]
  = Ok [[Stub.f 1]; [Stub.f 2]].
Proof.
  assert (Hbase : Embeddings_embed_documents Stub.docs ["a"; "b"]
                  = Ok [[Stub.f 1]; [Stub.f 2]]) by reflexivity.
  split; [exact Hbase|].
  destruct (embed_documents_pass_through (LC := Stub.lc)
              (Stub.hyde [] Stub.web_search) ["a"; "b"]) as (_ & Hok & _).
  exact (proj1 (Hok _ Hbase)).
Defined.

Example from_llm_custom_and_key :
  from_llm (LC := Stub.lc) ["doc1"] Stub.docs (Some "web_search") (Some Stub.custom) tt
  = Ok (Stub.hyde ["doc1"] Stub.custom).
Proof. reflexivity. Qed.

Lemma from_llm_custom_prompt_precedence_witness :
  from_llm (LC := Stub.lc) ["doc1"] Stub.docs (Some "web_search") (Some Stub.custom) tt
  = Ok (Stub.hyde ["doc1"] Stub.custom) /\
  prompt (llm_chain (Stub.hyde ["doc1"] Stub.custom)) = Stub.custom.
Proof.
  destruct (from_llm_custom_prompt_precedence (LC := Stub.lc)
              ["doc1"] Stub.docs (Some "web_search") Stub.custom tt)
    as (Hbuilt & _ & Hprompt).
  split; [exact Hbuilt|]. exact (Hprompt _ Hbuilt).
Defined.

Example from_llm_registered_key :
  from_llm (LC := Stub.lc) ["doc1"] Stub.docs (Some "sci_fact") None tt
  = Ok (Stub.hyde ["doc1"] Stub.sci_fact).
Proof. reflexivity. Qed.

Example missing_prompt_message :
  exn_msg (missing_prompt (LC := Stub.lc))
  = "Must specify prompt_key if custom_prompt not provided. Should be one of ['web_search', 'sci_fact'].".
Proof. reflexivity. Qed.


Lemma embed_query_binds_first_key_witness :
  input_keys (Stub.hyde ["doc1"; "doc2"] Stub.custom) = "q" :: ["style"] /\
  embed_query (Stub.hyde ["doc1"; "doc2"] Stub.custom) "what is X"
  = Ok [Stub.f 2; Stub.f 2].
Proof.
  assert (Hkeys : input_keys (Stub.hyde ["doc1"; "doc2"] Stub.custom) = "q" :: ["style"])
    by reflexivity.
  split; [exact Hkeys|].
  destruct (embed_query_binds_first_key (LC := Stub.lc)
              (Stub.hyde ["doc1"; "doc2"] Stub.custom) "what is X" "q" ["style"] Hkeys)
    as (_ & _ & Hfirst).
  rewrite (Hfirst {| generations := [Build_Generation <$> ["doc1"; "doc2"]] |}
             (Build_Generation <$> ["doc1"; "doc2"]) [] eq_refl eq_refl).
  reflexivity.
Defined.

(** C2, as stated, fails: with a language model that returns no completion
    the query embedding does fail, but the exception is the [TypeError] of
    [list(...)] on a [numpy.float64], not an error that the embedder raises
    for the empty candidate set. *)
Lemma embed_query_empty_error_not_dedicated :
  LLMChain_generate (langchain := Stub.lc)
    (llm_chain (Stub.hyde [] Stub.web_search)) [ {[ "QUESTION" := "what is X" ]} ]
  = Ok {| generations := [[]] |} /\
  ~ exists e,
      embed_query (Stub.hyde [] Stub.web_search) "what is X" = Raise e /\
      raised_by_hyde e.
Proof.
  split; [reflexivity|]. intros (e & He & Hsite).
  assert (E : embed_query (Stub.hyde [] Stub.web_search) "what is X"
              = Raise Np.not_iterable) by reflexivity.
  rewrite E in He. injection He as <-. discriminate Hsite.
Qed.

Lemma embed_query_no_candidates_fails_witness :
  input_keys (Stub.hyde [] Stub.web_search) !! 0 = Some "QUESTION" /\
  embed_query (Stub.hyde [] Stub.web_search) "what is X" = Raise Np.not_iterable /\
  exn_cls Np.not_iterable = TypeError /\
  exn_site Np.not_iterable = builtin_raise.
Proof.
  split; [reflexivity|].
  exact (embed_query_no_candidates_fails (LC := Stub.lc)
           (Stub.hyde [] Stub.web_search) "what is X" "QUESTION"
           {| generations := [[]] |} [] eq_refl eq_refl eq_refl eq_refl).
Defined.

(** * Further properties of the code *)

(** ** The combination step, continued *)

Section CombineMore.

Lemma forallb_length_rectangular (v : list float) (rest : list (list float)) :
  forallb (fun r' => Nat.eqb (length r') (length v)) rest = true <->
  rectangular (length v) (v :: rest).
Proof.
  unfold rectangular. rewrite forallb_forall, Forall_cons, Forall_forall. split.
  - intros H. split; [done|]. intros w Hw. apply Nat.eqb_eq, H.
    now apply list_elem_of_In.
  - intros [_ H] w Hw. apply Nat.eqb_eq, H. now apply list_elem_of_In.
Qed.

Lemma not_rectangular_ragged (v : list float) (rest : list (list float)) :
  forallb (fun r' => Nat.eqb (length r') (length v)) rest = false ->
  ragged (v :: rest).
Proof.
  intros H. induction rest as [|w rest IH]; [discriminate H|].
  simpl in H. apply andb_false_iff in H as [H|H].
  - exists w, v. split; [apply list_elem_of_further, list_elem_of_here|].
    split; [apply list_elem_of_here|]. now apply Nat.eqb_neq.
  - destruct (IH H) as (a & b & Ha & Hb & Hne). exists a, b.
    split; [|split; [|done]].
    + apply elem_of_cons in Ha as [->|Ha]; [apply list_elem_of_here|].
      now do 2 apply list_elem_of_further.
    + apply elem_of_cons in Hb as [->|Hb]; [apply list_elem_of_here|].
      now do 2 apply list_elem_of_further.
Qed.

Lemma combine_embeddings_outcomes_aux (vs : list (list float)) :
  (vs = [] /\ combine_embeddings vs = Raise Np.not_iterable) \/
  (exists r, combine_embeddings vs = Ok r) \/
  (ragged vs /\ combine_embeddings vs = Raise (Np.inhomogeneous (length vs))).
Proof.
  destruct vs as [|v rest]; [left; split; reflexivity|]. right.
  destruct (forallb (fun r' => Nat.eqb (length r') (length v)) rest) eqn:E.
  - left. apply forallb_length_rectangular in E. eexists.
    apply (combine_rectangular (length v)), E.
  - right. split; [now apply not_rectangular_ragged|].
    unfold combine_embeddings, Np.array. now rewrite E.
Qed.

(** The three outcomes of the combination: the empty list raises the
    [TypeError] of [list(...)], a list of vectors of one length returns a
    vector of that length, and any other list is refused by [np.array]. *)
Theorem combine_embeddings_outcomes (vs : list (list float)) :
  (vs = [] /\ combine_embeddings vs = Raise Np.not_iterable) \/
  (exists v rest r,
     vs = v :: rest /\ rectangular (length v) vs /\
     combine_embeddings vs = Ok r /\ length r = length v) \/
  (ragged vs /\ combine_embeddings vs = Raise (Np.inhomogeneous (length vs))).
Proof.
  destruct vs as [|v rest]; [left; split; reflexivity|]. right.
  destruct (forallb (fun r' => Nat.eqb (length r') (length v)) rest) eqn:E.
  - left. apply forallb_length_rectangular in E.
    exists v, rest. eexists. split; [reflexivity|]. split; [exact E|].
    split; [apply (combine_rectangular (length v)), E|].
    rewrite length_fmap. now apply sum_axis0_length.
  - right. split; [now apply not_rectangular_ragged|].
    unfold combine_embeddings, Np.array. now rewrite E.
Qed.

(** When the vectors have more or fewer than one component, the first two
    may be exchanged, whatever follows them: the rows are added to the
    accumulator one after the other.  (A single column is summed pairwise,
    and from 16 vectors on the first two go to different accumulators.) *)
Theorem combine_embeddings_swap_first_two
    (a b : list float) (rest : list (list float)) :
  length a ≠ 1 ->
  combine_embeddings (b :: a :: rest) = combine_embeddings (a :: b :: rest).
Proof.
  intros Hd. unfold combine_embeddings, Np.array. cbn [forallb].
  rewrite (Nat.eqb_sym (length a) (length b)).
  destruct (Nat.eqb_spec (length b) (length a)) as [Hlen|]; [|done].
  rewrite Hlen. cbn [andb].
  destruct (forallb _ rest); [|done].
  cbn [mbind result_bind Np.mean_axis0 Np.to_list length].
  rewrite !sum_axis0_rows by done. cbn [fold_left].
  rewrite <- Hlen at 1. now rewrite (add_rows_swap b a Hlen).
Qed.

Lemma ragged_permutation (vs vs' : list (list float)) :
  vs ≡ₚ vs' -> ragged vs -> ragged vs'.
Proof.
  intros Hperm (v & w & Hv & Hw & Hne). exists v, w.
  rewrite <- Hperm. done.
Qed.

(** Reordering the candidates changes neither whether the combination
    succeeds, nor the exception it raises, nor the length of the vector it
    returns: only the last bits of the components depend on the order. *)
Theorem combine_embeddings_permutation_shape (vs vs' : list (list float)) :
  vs ≡ₚ vs' ->
  match combine_embeddings vs, combine_embeddings vs' with
  | Ok r, Ok r' => length r = length r'
  | Raise e, Raise e' => e = e'
  | _, _ => False
  end.
Proof.
  intros Hperm.
  destruct (combine_embeddings_outcomes_aux vs) as [[-> Hc]|[(r & Hc)|[Hr Hc]]].
  - apply Permutation_nil in Hperm as ->. now rewrite Hc.
  - rewrite Hc. destruct vs as [|v rest]; [discriminate Hc|].
    destruct (combine_embeddings_outcomes_aux (v :: rest))
      as [[? _]|[_|[Hr Hc']]]; [done| |by rewrite Hc in Hc'].
    destruct (forallb (fun r' => Nat.eqb (length r') (length v)) rest) eqn:E.
    2: { unfold combine_embeddings, Np.array in Hc. rewrite E in Hc.
         discriminate Hc. }
    apply forallb_length_rectangular in E.
    assert (Hrect' : rectangular (length v) vs')
      by (unfold rectangular in *; now rewrite <- Hperm).
    destruct vs' as [|v' rest'].
    { apply Permutation_sym, Permutation_nil in Hperm. discriminate Hperm. }
    rewrite (combine_rectangular (length v) v rest E) in Hc.
    rewrite (combine_rectangular (length v) v' rest' Hrect').
    injection Hc as <-. rewrite !length_fmap.
    rewrite (sum_axis0_length _ _ E). now rewrite (sum_axis0_length _ _ Hrect').
  - rewrite Hc. apply (ragged_permutation _ _ Hperm) in Hr.
    destruct Hr as (v & w & Hv & Hw & Hne).
    unfold combine_embeddings. rewrite (array_ragged vs' v w) by done.
    cbn. now rewrite (Permutation_length Hperm).
Qed.

(** A NaN component is never masked: if one candidate has NaN at a
    position, the combined vector has NaN at that position. *)
Theorem combine_embeddings_nan_propagates
    (vs : list (list float)) (d : nat) (v : list float) (i : nat) :
  rectangular d vs -> v ∈ vs -> v !! i = Some F64.nan ->
  exists r, combine_embeddings vs = Ok r /\ r !! i = Some F64.nan.
Proof.
  intros Hrect Hv Hi. destruct vs as [|v0 vs]; [by apply elem_of_nil in Hv|].
  eexists. split; [apply (combine_rectangular d), Hrect|].
  assert (Hd : i < d).
  { unfold rectangular in Hrect. rewrite Forall_forall in Hrect.
    rewrite <- (Hrect v Hv). apply lookup_lt_is_Some. eauto. }
  assert (Hcol : F64.nan ∈ column i (v0 :: vs)).
  { unfold column. apply list_elem_of_fmap. exists v. split; [|done].
    now rewrite Hi. }
  rewrite list_lookup_fmap.
  destruct (decide (d = 1)) as [->|Hd1].
  - destruct i; [|lia]. rewrite sum_axis0_one by done.
    cbn [lookup list_lookup fmap option_fmap option_map]. f_equal.
    now rewrite pairwise_sum_nan, add_nan_r.
  - rewrite sum_axis0_lookup_rows by done.
    cbn [fmap option_fmap option_map]. f_equal.
    now rewrite sum_with_nan.
Qed.

Lemma combine_one_candidate (v : list float) :
  Forall (fun x => F64.valid x = true) v ->
  exists r, combine_embeddings [v] = Ok r /\ Forall2 F64.same_value r v.
Proof.
  intros Hv. eexists. split; [now apply combine_one|].
  apply Forall2_fmap_l, Forall_Forall2_diag, Forall_forall.
  intros x _. apply unsigned_zero_same.
Qed.

End CombineMore.

Lemma combine_embeddings_swap_first_two_witness :
  length [Stub.tenth; Stub.three_tenths] ≠ 1 /\
  combine_embeddings
    [[Stub.fifth; Stub.fifth]; [Stub.tenth; Stub.three_tenths]; [Stub.three_tenths; Stub.tenth]]
  = combine_embeddings Stub.candidates.
Proof.
  assert (Hd : length [Stub.tenth; Stub.three_tenths] ≠ 1) by discriminate.
  split; [exact Hd|].
  exact (combine_embeddings_swap_first_two
           [Stub.tenth; Stub.three_tenths] [Stub.fifth; Stub.fifth]
           [[Stub.three_tenths; Stub.tenth]] Hd).
Defined.

Lemma combine_embeddings_permutation_shape_witness :
  Stub.candidates ≡ₚ Stub.candidates_reversed /\
  match combine_embeddings Stub.candidates,
        combine_embeddings Stub.candidates_reversed with
  | Ok r, Ok r' => length r = length r'
  | Raise e, Raise e' => e = e'
  | _, _ => False
  end.
Proof.
  assert (Hperm : Stub.candidates ≡ₚ Stub.candidates_reversed).
  { change Stub.candidates_reversed with (rev Stub.candidates).
    apply Permutation_rev. }
  split; [exact Hperm|].
  exact (combine_embeddings_permutation_shape _ _ Hperm).
Defined.

Lemma combine_embeddings_nan_propagates_witness :
  rectangular 2 [[Stub.f 1; F64.nan]; [Stub.f 3; Stub.f 1]] /\
  exists r, combine_embeddings [[Stub.f 1; F64.nan]; [Stub.f 3; Stub.f 1]] = Ok r /\
            r !! 1 = Some F64.nan.
Proof.
  assert (Hrect : rectangular 2 [[Stub.f 1; F64.nan]; [Stub.f 3; Stub.f 1]])
    by (repeat constructor).
  split; [exact Hrect|].
  exact (combine_embeddings_nan_propagates _ 2 [Stub.f 1; F64.nan] 1 Hrect
           (list_elem_of_here _ _) eq_refl).
Defined.

(** ** The embedder, continued *)

Section EmbedderMore.
Context `{LC : langchain}.

(** [embed_query] once the chain and the embedding model have answered. *)
Lemma embed_query_answered
    (self : HypotheticalDocumentEmbedder) (text k : string)
    (result : LLMResult) (first : list Generation) (vectors : list (list float)) :
  input_keys self !! 0 = Some k ->
  LLMChain_generate (llm_chain self) [ {[ k := text ]} ] = Ok result ->
  generations result !! 0 = Some first ->
  Embeddings_embed_documents (base_embeddings self) (Generation_text <$> first)
  = Ok vectors ->
  embed_query self text = combine_embeddings vectors.
Proof.
  intros Hkey Hgen Hfirst Hemb. unfold input_keys in Hkey.
  unfold embed_query, getitem, embed_documents.
  rewrite Hkey. cbn [mbind result_bind]. rewrite Hgen. cbn [mbind result_bind].
  rewrite Hfirst. cbn [mbind result_bind]. rewrite Hemb. reflexivity.
Qed.

(** The pipeline end to end, on embeddings with integer components: when
    the chain returns a first generation group and the embedding model
    returns for its texts a non-empty list of vectors of one length [d],
    of integers whose absolute values sum to less than 2^53 at every
    position and whose sum the number of vectors divides, the query
    embedding has length [d] and its [i]-th component is the arithmetic
    mean of the [i]-th components, exactly. *)
Theorem embed_query_mean
    (self : HypotheticalDocumentEmbedder) (text k : string)
    (result : LLMResult) (first : list Generation)
    (vectors : list (list float)) (d : nat) :
  input_keys self !! 0 = Some k ->
  LLMChain_generate (llm_chain self) [ {[ k := text ]} ] = Ok result ->
  generations result !! 0 = Some first ->
  Embeddings_embed_documents (base_embeddings self) (Generation_text <$> first)
  = Ok vectors ->
  vectors ≠ [] -> rectangular d vectors ->
  (Z.of_nat (length vectors) < 2 ^ 53)%Z ->
  (forall i, i < d ->
     exists ks : list Z,
       column i vectors = F64.of_int <$> ks /\ (sum_abs ks < 2 ^ 53)%Z /\
       (Z.of_nat (length vectors) | sum_Z ks)%Z) ->
  exists r, embed_query self text = Ok r /\ length r = d /\
    forall i, i < d ->
      exists x, r !! i = Some x /\ is_mean_of x (column i vectors).
Proof.
  intros Hkey Hgen Hfirst Hemb Hne Hrect Hn Hint.
  rewrite (embed_query_answered self text k result first vectors) by done.
  now apply combine_ints.
Qed.

(** With exactly one candidate the query embedding is the embedding of
    that candidate, number for number. *)
Theorem embed_query_single_candidate
    (self : HypotheticalDocumentEmbedder) (text k : string)
    (result : LLMResult) (candidate : Generation) (v : list float) :
  input_keys self !! 0 = Some k ->
  LLMChain_generate (llm_chain self) [ {[ k := text ]} ] = Ok result ->
  generations result !! 0 = Some [candidate] ->
  Embeddings_embed_documents (base_embeddings self) [Generation_text candidate]
  = Ok [v] ->
  Forall (fun x => F64.valid x = true) v ->
  exists r, embed_query self text = Ok r /\ Forall2 F64.same_value r v.
Proof.
  intros Hkey Hgen Hfirst Hemb Hv.
  rewrite (embed_query_answered self text k result [candidate] [v]) by done.
  exact (combine_one_candidate v Hv).
Qed.

(** A chain without input key, or an answer without generation group,
    makes [embed_query] fail with the [IndexError] of the subscript. *)
Theorem embed_query_index_errors
    (self : HypotheticalDocumentEmbedder) (text : string) :
  (input_keys self = [] -> embed_query self text = Raise index_error) /\
  (forall (k : string) (result : LLMResult),
     input_keys self !! 0 = Some k ->
     LLMChain_generate (llm_chain self) [ {[ k := text ]} ] = Ok result ->
     generations result = [] ->
     embed_query self text = Raise index_error).
Proof.
  split.
  - intros Hkeys. unfold input_keys in Hkeys. unfold embed_query. now rewrite Hkeys.
  - intros k result Hkey Hgen Hnone. unfold input_keys in Hkey.
    unfold embed_query, getitem. rewrite Hkey. cbn [mbind result_bind].
    rewrite Hgen. cbn [mbind result_bind]. now rewrite Hnone.
Qed.

(** An exception of the chain or of the embedding model leaves
    [embed_query] as it is: nothing is caught, retried or replaced. *)
Theorem embed_query_propagates_failures
    (self : HypotheticalDocumentEmbedder) (text k : string) (e : exn) :
  input_keys self !! 0 = Some k ->
  (LLMChain_generate (llm_chain self) [ {[ k := text ]} ] = Raise e ->
   embed_query self text = Raise e) /\
  (forall (result : LLMResult) (first : list Generation),
     LLMChain_generate (llm_chain self) [ {[ k := text ]} ] = Ok result ->
     generations result !! 0 = Some first ->
     Embeddings_embed_documents (base_embeddings self) (Generation_text <$> first)
     = Raise e ->
     embed_query self text = Raise e).
Proof.
  intros Hkey. unfold input_keys in Hkey. split.
  - intros Hgen. unfold embed_query, getitem. rewrite Hkey.
    cbn [mbind result_bind]. now rewrite Hgen.
  - intros result first Hgen Hfirst Hemb.
    unfold embed_query, getitem, embed_documents. rewrite Hkey.
    cbn [mbind result_bind]. rewrite Hgen. cbn [mbind result_bind].
    rewrite Hfirst. cbn [mbind result_bind]. now rewrite Hemb.
Qed.

(** Where a failure of [embed_query] can come from: a subscript out of
    range, the chain, the embedding model, or the combination of what the
    embedding model returned (no vector at all, or vectors of different
    lengths).  The embedder raises nothing of its own. *)
Theorem embed_query_failure_sources
    (self : HypotheticalDocumentEmbedder) (text : string) (e : exn) :
  embed_query self text = Raise e ->
  (input_keys self = [] /\ e = index_error) \/
  exists k, input_keys self !! 0 = Some k /\
    (LLMChain_generate (llm_chain self) [ {[ k := text ]} ] = Raise e \/
     exists result,
       LLMChain_generate (llm_chain self) [ {[ k := text ]} ] = Ok result /\
       ((generations result = [] /\ e = index_error) \/
        exists first, generations result !! 0 = Some first /\
          (Embeddings_embed_documents (base_embeddings self)
             (Generation_text <$> first) = Raise e \/
           exists vectors,
             Embeddings_embed_documents (base_embeddings self)
               (Generation_text <$> first) = Ok vectors /\
             ((vectors = [] /\ e = Np.not_iterable) \/
              (ragged vectors /\ e = Np.inhomogeneous (length vectors)))))).
Proof.
  unfold embed_query, input_keys, getitem, embed_documents. intros H.
  destruct (LLMChain_input_keys (llm_chain self)) as [|k keys] eqn:Hkeys.
  { left. split; [reflexivity|]. cbn in H. now injection H as <-. }
  right. exists k. split; [reflexivity|].
  cbn [lookup list_lookup mbind result_bind] in H.
  destruct (LLMChain_generate (llm_chain self) [ {[ k := text ]} ])
    as [result|e'] eqn:Hgen.
  2: { left. cbn in H. now injection H as <-. }
  right. exists result. split; [reflexivity|].
  cbn [mbind result_bind] in H.
  destruct (generations result) as [|first others] eqn:Hgens.
  { left. split; [reflexivity|]. cbn in H. now injection H as <-. }
  right. exists first. split; [reflexivity|].
  cbn [lookup list_lookup mbind result_bind] in H.
  destruct (Embeddings_embed_documents (base_embeddings self)
              (Generation_text <$> first)) as [vectors|e'] eqn:Hemb.
  2: { left. cbn in H. now injection H as <-. }
  right. exists vectors. split; [reflexivity|].
  cbn [mbind result_bind] in H.
  destruct (combine_embeddings_outcomes_aux vectors)
    as [[-> Hc]|[(r & Hc)|[Hr Hc]]];
    rewrite Hc in H.
  - left. split; [reflexivity|]. now injection H as <-.
  - discriminate H.
  - right. split; [exact Hr|]. now injection H as <-.
Qed.

End EmbedderMore.

(** ** Construction, continued *)

Section Registry.

Lemma dict_lookup_registered {V} (d : dict V) (k : string) :
  k ∈ dict_keys d -> exists v, dict_lookup d k = Some v /\ (k, v) ∈ d.
Proof.
  induction d as [|[k' v'] d IH]; [by intros ?%elem_of_nil|].
  intros Hk. cbn [dict_lookup]. destruct (decide (k = k')) as [->|Hne].
  - exists v'. rewrite bool_decide_eq_true_2 by done.
    split; [reflexivity|apply list_elem_of_here].
  - rewrite bool_decide_eq_false_2 by done.
    apply elem_of_cons in Hk as [Hk|Hk]; [done|].
    destruct (IH Hk) as (v & Hv & Hin). exists v.
    split; [exact Hv|now apply list_elem_of_further].
Qed.






End Registry.

Section FromLlmMore.
Context `{LC : langchain}.

(** A registered key selects the prompt stored under it: the subscript
    after the membership test cannot fail, and the embedder is returned as
    soon as the other constructor arguments are accepted. *)
Theorem from_llm_uses_registered_prompt
    (llm : BaseLanguageModel) (emb : Embeddings) (k : string)
    (kwargs : Kwargs) (options : ChainOptions) :
  k ∈ dict_keys PROMPT_MAP ->
  validate_kwargs kwargs = Ok options ->
  exists p, (k, p) ∈ PROMPT_MAP /\
    from_llm llm emb (Some k) None kwargs
    = Ok {| base_embeddings := emb;
            llm_chain := {| llm := llm; prompt := p |};
            chain_options := options |}.
Proof.
  intros Hk Hopts. destruct (dict_lookup_registered PROMPT_MAP k Hk) as (p & Hp & Hin).
  exists p. split; [exact Hin|].
  unfold from_llm, dict_contains, dict_getitem.
  rewrite bool_decide_eq_true_2 by done. rewrite Hp.
  cbn [mbind result_bind]. now rewrite Hopts.
Qed.

(** What a returned embedder holds: the embedding model and the language
    model it was given, the validated options, and as prompt the custom
    prompt if there is one, else a prompt registered under the key. *)
Theorem from_llm_returned_embedder
    (model : BaseLanguageModel) (emb : Embeddings) (prompt_key : option string)
    (custom_prompt : option BasePromptTemplate) (kwargs : Kwargs)
    (self : HypotheticalDocumentEmbedder) :
  from_llm model emb prompt_key custom_prompt kwargs = Ok self ->
  base_embeddings self = emb /\
  llm (llm_chain self) = model /\
  validate_kwargs kwargs = Ok (chain_options self) /\
  match custom_prompt with
  | Some p => prompt (llm_chain self) = p
  | None => exists k, prompt_key = Some k /\ (k, prompt (llm_chain self)) ∈ PROMPT_MAP
  end.
Proof.
  unfold from_llm. intros H.
  destruct custom_prompt as [p|].
  - cbn [mbind result_bind] in H.
    destruct (validate_kwargs kwargs) as [options|e]; [|discriminate H].
    injection H as <-. done.
  - destruct prompt_key as [k|]; [|discriminate H].
    unfold dict_contains in H. case_bool_decide as Hk; [|discriminate H].
    destruct (dict_lookup_registered PROMPT_MAP k Hk) as (p & Hp & Hin).
    unfold dict_getitem in H. rewrite Hp in H. cbn [mbind result_bind] in H.
    destruct (validate_kwargs kwargs) as [options|e]; [|discriminate H].
    injection H as <-. cbn. repeat split; try done. exists k. done.
Qed.

(** Where a failure of [from_llm] can come from: the prompt could not be
    resolved, or the other constructor arguments were refused. *)
Theorem from_llm_failure_sources
    (llm : BaseLanguageModel) (emb : Embeddings) (prompt_key : option string)
    (custom_prompt : option BasePromptTemplate) (kwargs : Kwargs) (e : exn) :
  from_llm llm emb prompt_key custom_prompt kwargs = Raise e ->
  (custom_prompt = None /\
   (prompt_key = None \/ exists k, prompt_key = Some k /\ k ∉ dict_keys PROMPT_MAP) /\
   e = missing_prompt) \/
  validate_kwargs kwargs = Raise e.
Proof.
  unfold from_llm. intros H.
  destruct custom_prompt as [p|].
  - right. cbn [mbind result_bind] in H.
    destruct (validate_kwargs kwargs) as [options|e']; [discriminate H|].
    now injection H as <-.
  - destruct prompt_key as [k|].
    + unfold dict_contains in H. case_bool_decide as Hk.
      * right. destruct (dict_lookup_registered PROMPT_MAP k Hk) as (p & Hp & _).
        unfold dict_getitem in H. rewrite Hp in H. cbn [mbind result_bind] in H.
        destruct (validate_kwargs kwargs) as [options|e']; [discriminate H|].
        now injection H as <-.
      * left. cbn in H. injection H as <-. split; [done|]. split; [|done].
        right. exists k. done.
    + left. cbn in H. injection H as <-. split; [done|]. split; [|done]. now left.
Qed.


End FromLlmMore.

(** ** The further properties on the test doubles *)

Lemma embed_query_mean_witness :
  exists r,
    embed_query (Stub.hyde ["doc1"; "doc2"] Stub.web_search) "what is X" = Ok r /\
    length r = 2 /\
    forall i, i < 2 ->
      exists x, r !! i = Some x /\
        is_mean_of x (column i [[Stub.f 1; Stub.f 3]; [Stub.f 3; Stub.f 1]]).
Proof.
  apply (embed_query_mean (LC := Stub.lc)
           (Stub.hyde ["doc1"; "doc2"] Stub.web_search) "what is X" "QUESTION"
           {| generations := [Build_Generation <$> ["doc1"; "doc2"]] |}
           (Build_Generation <$> ["doc1"; "doc2"])
           [[Stub.f 1; Stub.f 3]; [Stub.f 3; Stub.f 1]] 2).
  - reflexivity.
  - reflexivity.
  - reflexivity.
  - reflexivity.
  - discriminate.
  - repeat constructor.
  - reflexivity.
  - intros [|[|i]] Hi.
    + exists [1; 3]%Z. split; [reflexivity|]. split; [reflexivity|].
      exists 2%Z. reflexivity.
    + exists [3; 1]%Z. split; [reflexivity|]. split; [reflexivity|].
      exists 2%Z. reflexivity.
    + exfalso. apply (Nat.lt_irrefl 2).
      apply (Nat.le_lt_trans _ (S (S i))); [|exact Hi].
      apply le_n_S, le_n_S, Nat.le_0_l.
Defined.

Lemma embed_query_single_candidate_witness :
  exists r,
    embed_query (Stub.hyde ["a"] Stub.web_search) "what is X" = Ok r /\
    Forall2 F64.same_value r [Stub.f 1].
Proof.
  apply (embed_query_single_candidate (LC := Stub.lc)
           (Stub.hyde ["a"] Stub.web_search) "what is X" "QUESTION"
           {| generations := [[Build_Generation "a"]] |} (Build_Generation "a")
           [Stub.f 1]).
  - reflexivity.
  - reflexivity.
  - reflexivity.
  - reflexivity.
  - repeat constructor.
Defined.

Lemma embed_query_index_errors_witness :
  embed_query (Broken.hyde (Some [["a"]]) Broken.no_variable) "what is X"
  = Raise index_error /\
  embed_query (Broken.hyde (Some []) Stub.web_search) "what is X"
  = Raise index_error.
Proof.
  split.
  - exact (proj1 (embed_query_index_errors (LC := Broken.lc)
                    (Broken.hyde (Some [["a"]]) Broken.no_variable) "what is X")
             eq_refl).
  - exact (proj2 (embed_query_index_errors (LC := Broken.lc)
                    (Broken.hyde (Some []) Stub.web_search) "what is X")
             "QUESTION" {| generations := [] |} eq_refl eq_refl eq_refl).
Defined.

Lemma embed_query_propagates_failures_witness :
  embed_query (Broken.hyde None Stub.web_search) "what is X"
  = Raise Broken.out_of_order /\
  embed_query (Broken.hyde (Some [["a"; "c"]]) Stub.web_search) "what is X"
  = Raise (Stub.unknown_text "c").
Proof.
  split.
  - exact (proj1 (embed_query_propagates_failures (LC := Broken.lc)
                    (Broken.hyde None Stub.web_search) "what is X" "QUESTION"
                    Broken.out_of_order eq_refl)
             eq_refl).
  - exact (proj2 (embed_query_propagates_failures (LC := Broken.lc)
                    (Broken.hyde (Some [["a"; "c"]]) Stub.web_search) "what is X"
                    "QUESTION" (Stub.unknown_text "c") eq_refl)
             {| generations := [Build_Generation <$> ["a"; "c"]] |}
             (Build_Generation <$> ["a"; "c"]) eq_refl eq_refl eq_refl).
Defined.

Lemma embed_query_failure_sources_witness :
  embed_query (Broken.hyde (Some [["doc1"; "a"]]) Stub.web_search) "what is X"
  = Raise (Np.inhomogeneous 2) /\
  exists k,
    input_keys (Broken.hyde (Some [["doc1"; "a"]]) Stub.web_search) !! 0 = Some k.
Proof.
  assert (H : embed_query (Broken.hyde (Some [["doc1"; "a"]]) Stub.web_search)
                "what is X" = Raise (Np.inhomogeneous 2)) by reflexivity.
  split; [exact H|].
  destruct (embed_query_failure_sources (LC := Broken.lc) _ _ _ H)
    as [[Hkeys _]|(k & Hk & _)]; [discriminate Hkeys|].
  exists k. exact Hk.
Defined.

Lemma from_llm_uses_registered_prompt_witness :
  exists p : Stub.template,
    ("sci_fact", p) ∈ PROMPT_MAP (langchain := Stub.lc) /\
    from_llm (LC := Stub.lc) ["doc1"] Stub.docs (Some "sci_fact") None tt
    = Ok (Stub.hyde ["doc1"] p).
Proof.
  apply (from_llm_uses_registered_prompt (LC := Stub.lc)).
  - apply list_elem_of_further, list_elem_of_here.
  - reflexivity.
Defined.

Lemma from_llm_returned_embedder_witness :
  base_embeddings (Stub.hyde ["doc1"] Stub.sci_fact) = Stub.docs /\
  llm (llm_chain (Stub.hyde ["doc1"] Stub.sci_fact)) = ["doc1"] /\
  validate_kwargs (langchain := Stub.lc) tt
  = Ok (chain_options (Stub.hyde ["doc1"] Stub.sci_fact)) /\
  exists k, Some "sci_fact" = Some k /\
    (k, prompt (llm_chain (Stub.hyde ["doc1"] Stub.sci_fact)))
      ∈ PROMPT_MAP (langchain := Stub.lc).
Proof.
  exact (from_llm_returned_embedder (LC := Stub.lc)
           ["doc1"] Stub.docs (Some "sci_fact") None tt
           (Stub.hyde ["doc1"] Stub.sci_fact) eq_refl).
Defined.

Lemma from_llm_failure_sources_witness :
  from_llm (LC := Broken.lc) None Stub.docs None (Some Stub.custom) false
  = Raise Broken.refused /\
  validate_kwargs (langchain := Broken.lc) false = Raise Broken.refused.
Proof.
  assert (H : from_llm (LC := Broken.lc) None Stub.docs None (Some Stub.custom) false
              = Raise Broken.refused) by reflexivity.
  split; [exact H|].
  destruct (from_llm_failure_sources (LC := Broken.lc) _ _ _ _ _ _ H)
    as [(Hcustom & _)|Hv]; [discriminate Hcustom|exact Hv].
Defined.

